(** * cnn-annotator: the annotation export and the dataset builder

    A shallow embedding of the two notebooks of the repository:

    - [A_CNN_Annotation_with_Napari.ipynb]: [CellState], [get_image_patch],
      the export widget [cnn_annotation_widget] and the two key bindings
      [next_label] / [previous_label];
    - the training notebook: [LABELS] and [create_tf_record].

    Python values are modelled as the code has them: a 2-D [ndarray] of
    an integer dtype is a list of rows of [Z], a point coordinate (a
    float64) is the rational it denotes, exceptions are an error type and
    fallible code lives in a small result monad.  Slicing and indexing
    follow Python's rules, negative indices included. *)

From Stdlib Require Import String Ascii DecimalString DecimalNat.
From Stdlib Require Import ZArith QArith Qround Bool List Lia.
Import ListNotations.

Local Open Scope string_scope.
Local Open Scope Z_scope.
Local Open Scope list_scope.

(* ===================================================================== *)
(** * Exceptions and the result monad *)
(* ===================================================================== *)

Module Py.

(** The exceptions the two notebooks can raise.  The payload of
    [ValueError_patch_shape] is the tuple printed at the end of the message
    "Image patch doesn't have correct shape: {patch.shape}". *)
Inductive exn : Type :=
| ValueError_patch_shape (shape : list Z)
| ValueError_unpack (got : nat)
| ValueError_enum (value : Z)
| ValueError_empty_stack
| IndexError
| KeyError (name : string)
| ReadError (name : string).

Definition is_ValueError (e : exn) : bool :=
  match e with
  | ValueError_patch_shape _ | ValueError_unpack _
  | ValueError_enum _ | ValueError_empty_stack => true
  | _ => false
  end.

Inductive result (A : Type) : Type :=
| Ok (a : A)
| Raise (e : exn).

Arguments Ok {A} a.
Arguments Raise {A} e.

Definition bind {A B} (m : result A) (k : A -> result B) : result B :=
  match m with
  | Ok a => k a
  | Raise e => Raise e
  end.

(** [mapM f l]: a list comprehension whose body may raise; the first
    exception, in list order, propagates. *)
Fixpoint mapM {A B} (f : A -> result B) (l : list A) : result (list B) :=
  match l with
  | [] => Ok []
  | a :: l' =>
      bind (f a) (fun b => bind (mapM f l') (fun bs => Ok (b :: bs)))
  end.

(** [foldM step l s]: a [for] loop over [l] that updates the state [s] and
    stops at the first exception. *)
Fixpoint foldM {A S} (step : S -> A -> result S) (l : list A) (s : S)
  : result S :=
  match l with
  | [] => Ok s
  | a :: l' => bind (step s a) (foldM step l')
  end.

(** ** Indexing and slicing *)

(** [l[i]]: a negative index counts from the end; out of range raises. *)
Definition index {A} (l : list A) (i : Z) : result A :=
  let len := Z.of_nat (length l) in
  let j := if i <? 0 then i + len else i in
  if (0 <=? j) && (j <? len) then
    match nth_error l (Z.to_nat j) with
    | Some a => Ok a
    | None => Raise IndexError
    end
  else Raise IndexError.

(** How a slice bound is normalised against the length (step 1): a negative
    bound is taken from the end and clamped at 0, a non-negative one is
    clamped at the length. *)
Definition slice_bound (len i : Z) : Z :=
  if i <? 0 then Z.max (i + len) 0 else Z.min i len.

(** [l[start:stop]]; empty when the normalised bounds cross. *)
Definition slice {A} (l : list A) (start stop : Z) : list A :=
  let len := Z.of_nat (length l) in
  let lo := slice_bound len start in
  let hi := slice_bound len stop in
  firstn (Z.to_nat (hi - lo)) (skipn (Z.to_nat lo) l).

(** [enumerate(l)]. *)
Fixpoint enumerate_from {A} (n : nat) (l : list A) : list (nat * A) :=
  match l with
  | [] => []
  | a :: l' => (n, a) :: enumerate_from (S n) l'
  end.

Definition enumerate {A} (l : list A) : list (nat * A) := enumerate_from 0 l.

(** ** Strings *)

Definition startswith (s p : string) : bool := String.prefix p s.

(** [s.endswith(suf)]: [suf] is one of the tails of [s]. *)
Fixpoint endswith (s suf : string) : bool :=
  String.eqb s suf ||
  match s with
  | EmptyString => false
  | String _ s' => endswith s' suf
  end.

Definition is_lower (c : ascii) : bool :=
  let n := nat_of_ascii c in (97 <=? n)%nat && (n <=? 122)%nat.
Definition is_upper (c : ascii) : bool :=
  let n := nat_of_ascii c in (65 <=? n)%nat && (n <=? 90)%nat.
Definition upper (c : ascii) : ascii :=
  if is_lower c then ascii_of_nat (nat_of_ascii c - 32) else c.
Definition lower (c : ascii) : ascii :=
  if is_upper c then ascii_of_nat (nat_of_ascii c + 32) else c.

Fixpoint lowercase (s : string) : string :=
  match s with
  | EmptyString => EmptyString
  | String c s' => String (lower c) (lowercase s')
  end.

(** [s.isascii()]: every character is below 128. *)
Fixpoint isascii (s : string) : bool :=
  match s with
  | EmptyString => true
  | String c s' => (nat_of_ascii c <? 128)%nat && isascii s'
  end.

(** [s.capitalize()] on ASCII text: first character upper-cased, the rest
    lower-cased.  Python's method is Unicode-aware (outside ASCII it may
    change the length of the string); this definition is that method on
    the strings with [isascii s = true] only, and what is proved of it is
    stated for such strings or for the labels of [LABELS]. *)
Definition capitalize (s : string) : string :=
  match s with
  | EmptyString => EmptyString
  | String c s' => String (upper c) (lowercase s')
  end.

(** [str(n)] for a non-negative integer. *)
Definition str_nat (n : nat) : string :=
  NilEmpty.string_of_uint (Nat.to_uint n).

(** ** Numbers *)

(** [int(q)] on a float: truncation toward zero. *)
Definition int_of_float (q : Q) : Z := Z.quot (Qnum q) (Zpos (Qden q)).

End Py.

Import Py.

Declare Scope py_scope.
Notation "x <- m ;; k" := (bind m (fun x => k))
  (at level 61, m at next level, right associativity) : py_scope.
Local Open Scope py_scope.

(* ===================================================================== *)
(** * Arrays *)
(* ===================================================================== *)

Module Np.

Definition pixel := Z.

(** The integer dtypes of an image array. *)
Inductive dtype : Type :=
| uint8 | uint16 | uint32 | uint64 | int8 | int16 | int32 | int64.

(** A 2-D array of an integer dtype, row by row. *)
Definition image := list (list pixel).

(** A movie of shape (T, H, W). *)
Definition movie := list image.

(** Every frame has [H] rows of [W] pixels: what [ndarray] guarantees. *)
Definition wf_image (H W : nat) (img : image) : Prop :=
  length img = H /\ Forall (fun row => length row = W) img.

Definition wf_movie (H W : nat) (m : movie) : Prop :=
  Forall (wf_image H W) m.

(** [np.array(rows).shape] for a list of 1-D arrays: [(0,)] for the empty
    list, [(k, m)] for [k] rows of one length [m].  Rows of different
    lengths (which slicing the rows of an [ndarray] with the same bounds
    never produces) give a 1-D object array of shape [(k,)]. *)
Definition shape (rows : list (list pixel)) : list Z :=
  match rows with
  | [] => [0]
  | r :: rs =>
      if forallb (fun r' => Nat.eqb (length r') (length r)) rs
      then [Z.of_nat (length rows); Z.of_nat (length r)]
      else [Z.of_nat (length rows)]
  end.

(** [a[r][c]], for an index pair inside the array. *)
Definition at2 (a : image) (r c : Z) : option pixel :=
  if (0 <=? r) && (0 <=? c) then
    match nth_error a (Z.to_nat r) with
    | Some row => nth_error row (Z.to_nat c)
    | None => None
    end
  else None.

End Np.

Import Np.

(* ===================================================================== *)
(** * The annotation notebook *)
(* ===================================================================== *)

(** ** [class CellState(Enum)] *)

Inductive CellState : Type :=
| Interphase | Prometaphase | Metaphase | Anaphase | Apoptosis.

Definition CellState_members : list CellState :=
  [Interphase; Prometaphase; Metaphase; Anaphase; Apoptosis].

Definition value (s : CellState) : Z :=
  match s with
  | Interphase => 0
  | Prometaphase => 1
  | Metaphase => 2
  | Anaphase => 3
  | Apoptosis => 4
  end.

Definition name (s : CellState) : string :=
  match s with
  | Interphase => "Interphase"
  | Prometaphase => "Prometaphase"
  | Metaphase => "Metaphase"
  | Anaphase => "Anaphase"
  | Apoptosis => "Apoptosis"
  end.

(** [CellState(v)]: lookup by value, [ValueError] when no member has it. *)
Definition CellState_of_value (v : Z) : result CellState :=
  match find (fun s => value s =? v) CellState_members with
  | Some s => Ok s
  | None => Raise (ValueError_enum v)
  end.

(** ** Layers of the viewer *)

Inductive layer_kind : Type := ImageLayer | PointsLayer | OtherLayer.

Record Layer : Type := mkLayer {
  kind : layer_kind;
  lname : string;
  visible : bool;
  metadata : list (string * string);
  data : movie;
  data_dtype : dtype
}.

Definition isinstance_Image (l : Layer) : bool :=
  match kind l with ImageLayer => true | _ => false end.

(** ** [get_image_patch] *)

Definition get_image_patch (layers : list Layer) (coords : list Q)
  (shape : Z) : result image :=
  match map int_of_float coords with
  | [frame; y_coo; x_coo] =>
      let pad := shape / 2 in
      layer0 <- index layers 0 ;;
      image <- index (data layer0) frame ;;
      let patch :=
        map (fun row => slice row (x_coo - pad) (x_coo + pad))
            (slice image (y_coo - pad) (y_coo + pad)) in
      if list_eq_dec Z.eq_dec (Np.shape patch) [shape; shape]
      then Ok patch
      else Raise (ValueError_patch_shape (Np.shape patch))
  | unpacked => Raise (ValueError_unpack (length unpacked))
  end.

(** ** The widget state and the two key bindings *)

(** What the key bindings read and write: the value of the [state] drop-down
    of the widget. *)
Record Gui : Type := mkGui {
  state : CellState
}.

(** [cnn_annotation_widget.state.value = s].  The handler connected to the
    [changed] signal, [_change_points_properties], assigns an item of the
    dictionary that the getter [points_layer.current_properties] returns;
    whether that assignment reaches the layer is decided inside napari, and
    nothing in the notebook reads it back, so it is not part of the state
    modelled here. *)
Definition set_state (g : Gui) (s : CellState) : Gui :=
  {| state := s |}.

Definition len_CellState : Z := Z.of_nat (length CellState_members).

Definition next_label (g : Gui) : result Gui :=
  let new_state := (value (state g) + 1) mod len_CellState in
  s <- CellState_of_value new_state ;;
  Ok (set_state g s).

Definition previous_label (g : Gui) : result Gui :=
  let new_state := (value (state g) - 1) mod len_CellState in
  s <- CellState_of_value new_state ;;
  Ok (set_state g s).

(** [n] presses of a key, one after the other. *)
Definition press (key : Gui -> result Gui) (n : nat) (g : Gui) : result Gui :=
  Nat.iter n (fun r => bind r key) (Ok g).

(** ** The export *)

(** The points layer: [pdata] is the (n, ndim) array of coordinates, one row
    per point, and [State] the column [properties['State']] of label names. *)
Record Points : Type := mkPoints {
  pdata : list (list Q);
  pndim : nat;
  State : list string
}.

(** The values the export stores in [export_data]. *)
Inductive json : Type :=
| JInt (n : Z)
| JMetadata (m : list (string * string))
| JFloats (l : list Q)
| JStrings (l : list string).

(** A Python [dict]: keys in insertion order, assignment to a key that is
    present replaces its value in place. *)
Definition dict := list (string * json).

Fixpoint dict_set (d : dict) (k : string) (v : json) : dict :=
  match d with
  | [] => [(k, v)]
  | (k', v') :: d' =>
      if String.eqb k' k then (k, v) :: d' else (k', v') :: dict_set d' k v
  end.

Definition dict_get (d : dict) (k : string) : option json :=
  match find (fun e => String.eqb (fst e) k) d with
  | Some e => Some (snd e)
  | None => None
  end.

Definition keys (d : dict) : list string := map fst d.

(** What an archive member holds.  [TiffWriter.save] stores an integer
    array without loss, so a member written from a patch is modelled by
    the dtype and the entries of the patch; the JSON text by the dictionary
    dumped. *)
Inductive content : Type :=
| Tiff (dt : dtype) (img : image)
| Text (doc : dict).

Definition archive := list (string * content).

Record ZipFile : Type := mkZip {
  zname : string;
  members : archive
}.

Definition SESSION_NAME (SESSION_TIME : string) : string :=
  ("annotation_" ++ SESSION_TIME)%string.

(** [points_layer.data[:, idx].tolist()] *)
Definition column (idx : nat) (rows : list (list Q)) : list Q :=
  map (fun row => nth idx row 0%Q) rows.

Definition image_patch_fn (patch_label SESSION_TIME : string) (idx : nat)
  : string :=
  (patch_label ++ "/" ++ patch_label ++ "_" ++ SESSION_TIME ++ "_"
     ++ str_nat idx ++ ".tif")%string.

(** The bodies of the two loops that fill [export_data]. *)
Definition add_layer (use_visible_layers : bool) (d : dict) (layer : Layer)
  : dict :=
  if use_visible_layers && visible layer
  then dict_set d (lname layer) (JMetadata (metadata layer))
  else d.

Definition add_coords (points_layer : Points) (d : dict) (idx : nat) : dict :=
  dict_set d ("coords-" ++ str_nat idx)%string
    (JFloats (column idx (pdata points_layer))).

(** The first half of the widget body: the dictionary that becomes the
    JSON member. *)
Definition build_export_data (layers : list Layer) (points_layer : Points)
  (shape : Z) (use_visible_layers : bool) : dict :=
  let export_data := [("shape", JInt shape)] in
  let image_layers := filter isinstance_Image layers in
  let export_data :=
    fold_left (add_layer use_visible_layers) image_layers export_data in
  let export_data :=
    fold_left (add_coords points_layer) (seq 0 (pndim points_layer))
      export_data in
  dict_set export_data "labels" (JStrings (State points_layer)).

(** The dtype of a cropped patch: [np.array] over slices of the rows of
    [layers[0].data[frame]] keeps the dtype of [layers[0].data].  (Without
    a first layer [get_image_patch] raises and there is no patch.) *)
Definition patch_dtype (layers : list Layer) : dtype :=
  match layers with
  | layer0 :: _ => data_dtype layer0
  | [] => int64
  end.

(** The loop over [enumerate(points_layer.data)] inside the [with] block:
    [myzip] is what has been written so far.  An exception leaves the loop
    (and the [with] block, which closes the archive) at once. *)
Fixpoint write_patches (image_layers : list Layer) (states : list string)
  (SESSION_TIME : string) (shape : Z) (todo : list (nat * list Q))
  (myzip : archive) : archive * result unit :=
  match todo with
  | [] => (myzip, Ok tt)
  | (idx, patch_coords) :: todo' =>
      match
        (patch_label <- index states (Z.of_nat idx) ;;
         image_patch <- get_image_patch image_layers patch_coords shape ;;
         Ok (patch_label, image_patch))
      with
      | Ok (patch_label, image_patch) =>
          let image_patch_fn :=
            image_patch_fn patch_label SESSION_TIME idx in
          write_patches image_layers states SESSION_TIME shape todo'
            (myzip ++ [(image_patch_fn,
                        Tiff (patch_dtype image_layers) image_patch)])
      | Raise e => (myzip, Raise e)
      end
  end.

(** The widget body.  The result pairs the archive as it is left on disk
    with the outcome of the call.  (The [filename] and [state] arguments of
    the widget are not used by its body.) *)
Definition cnn_annotation_widget (layers : list Layer)
  (points_layer : Points) (SESSION_TIME : string) (shape : Z)
  (use_visible_layers : bool) : ZipFile * result unit :=
  let export_data :=
    build_export_data layers points_layer shape use_visible_layers in
  let image_layers := filter isinstance_Image layers in
  let zip_fn := (SESSION_NAME SESSION_TIME ++ ".zip")%string in
  match
    write_patches image_layers (State points_layer) SESSION_TIME shape
      (enumerate (pdata points_layer)) []
  with
  | (myzip, Ok _) =>
      let stream := Text export_data in
      (mkZip zip_fn
         (myzip ++ [((SESSION_NAME SESSION_TIME ++ ".json")%string, stream)]),
       Ok tt)
  | (myzip, Raise e) => (mkZip zip_fn myzip, Raise e)
  end.

(* ===================================================================== *)
(** * The training notebook *)
(* ===================================================================== *)

Definition LABELS : list string :=
  ["Interphase"; "Prometaphase"; "Metaphase"; "Anaphase"; "Apoptosis"].

(** A float64 array, each entry the rational it denotes. *)
Definition fimage := list (list Q).

(** [skimage.transform.resize(img, output_shape, preserve_range=...)]: an
    array of the requested shape whose entries come from the library's
    interpolation, [interp], which is left open. *)
Definition resize
  (interp : bool -> image -> nat * nat -> nat -> nat -> Q)
  (img : image) (output_shape : nat * nat) (preserve_range : bool)
  : fimage :=
  map (fun i =>
         map (fun j => interp preserve_range img output_shape i j)
             (seq 0 (snd output_shape)))
      (seq 0 (fst output_shape)).

(** [zip_data.open(f)]: the member recorded last under that name. *)
Definition zip_open (z : archive) (f : string) : result content :=
  match find (fun e => String.eqb (fst e) f) (rev z) with
  | Some e => Ok (snd e)
  | None => Raise (KeyError f)
  end.

Definition namelist (z : archive) : list string := map fst z.

(** [imread] of an open member: the array, when the member holds a TIFF
    of a dtype that the reader decodes.  Which dtypes those are depends on
    the reader plug-in that [skimage.io.imread] picks for a file object
    (a 64-bit integer TIFF, which the export writes for a 64-bit movie, is
    one that may be refused); it is left open as [decodes]. *)
Definition imread (decodes : dtype -> bool) (f : string) (c : content)
  : result image :=
  match c with
  | Tiff dt img => if decodes dt then Ok img else Raise (ReadError f)
  | Text _ => Raise (ReadError f)
  end.

(** [np.stack(l, axis=0)] *)
Definition np_stack {A} (l : list A) : result (list A) :=
  match l with
  | [] => Raise ValueError_empty_stack
  | _ => Ok l
  end.

(** [a[..., np.newaxis]] on a stack of 2-D arrays. *)
Definition newaxis {A} (a : list (list (list A))) : list (list (list (list A))) :=
  map (map (map (fun v => [v]))) a.

(** [astype(np.uint8)] on a float: truncated, then reduced modulo 256. *)
Definition astype_uint8 (q : Q) : Z := int_of_float q mod 256.

(** [astype(np.int64)] on an integer: two's complement on 64 bits. *)
Definition astype_int64 (z : Z) : Z := (z + 2 ^ 63) mod 2 ^ 64 - 2 ^ 63.

Definition is_patch_file (label f : string) : bool :=
  endswith f ".tif" && startswith f (capitalize label).

Definition is_annotation_zip (f : string) : bool :=
  endswith f ".zip" && startswith f "annotation_".

Section CreateTfRecord.

Variable decodes : dtype -> bool.
Variable interp : bool -> image -> nat * nat -> nat -> nat -> Q.

(** The body of the loop over [enumerate(labels)], on the two
    accumulators [_images] and [_labels]. *)
Definition load_label (zip_data : archive)
  (acc : list fimage * list Z) (nl : nat * string)
  : result (list fimage * list Z) :=
  let '(numeric_label, label) := nl in
  let files := namelist zip_data in
  let patch_files := filter (is_patch_file label) files in
  images <- mapM (fun f => c <- zip_open zip_data f ;; imread decodes f c)
                 patch_files ;;
  let images_resized :=
    map (fun img => resize interp img (64%nat, 64%nat) true) images in
  Ok (fst acc ++ images_resized,
      snd acc ++ repeat (Z.of_nat numeric_label) (length images_resized)).

(** The body of the loop over [zipfiles]. *)
Definition load_zip (labels : list string)
  (acc : list fimage * list Z) (zfn : string * archive)
  : result (list fimage * list Z) :=
  foldM (load_label (snd zfn)) (enumerate labels) acc.

(** [create_tf_record(root, filename, labels)]: [root] is the directory
    listing, each name with the archive stored under it; the result is
    what is handed to [write_dataset]. *)
Definition create_tf_record (root : list (string * archive))
  (filename : string) (labels : list string)
  : result (string * list (list (list (list Z))) * list Z) :=
  let zipfiles := filter (fun f => is_annotation_zip (fst f)) root in
  acc <- foldM (load_zip labels) zipfiles ([], []) ;;
  let '(_images, _labels) := acc in
  stacked <- np_stack _images ;;
  let images_arr := newaxis stacked in
  labels_arr <- np_stack _labels ;;
  Ok (filename,
      map (map (map (map astype_uint8))) images_arr,
      map astype_int64 labels_arr).

End CreateTfRecord.

(* ===================================================================== *)
(** * The order in which [create_tf_record] visits the patch files *)
(* ===================================================================== *)

(** [imread(zip_data.open(f))] *)
Definition read_member (decodes : dtype -> bool) (zip_data : archive)
  (f : string) : result image :=
  c <- zip_open zip_data f ;; imread decodes f c.

(** The members of an archive filed under one label. *)
Definition patch_files (label : string) (zip_data : archive) : list string :=
  filter (is_patch_file label) (namelist zip_data).

(** One visit: the archive, the numeric label and the member name. *)
Definition visit : Type := archive * nat * string.

Definition visit_read (decodes : dtype -> bool) (v : visit) : result image :=
  let '(zip_data, _, f) := v in read_member decodes zip_data f.

Definition visit_label (v : visit) : Z :=
  let '(_, numeric_label, _) := v in Z.of_nat numeric_label.

(** Archive by archive; within an archive label by label, in the order of
    [labels]; within a label in the order of the archive's name list. *)
Definition visits_of_zip (labels : list string) (zip_data : archive)
  : list visit :=
  flat_map
    (fun nl => map (fun f => (zip_data, fst nl, f))
                   (patch_files (snd nl) zip_data))
    (enumerate labels).

Definition visits (labels : list string) (zipfiles : list (string * archive))
  : list visit :=
  flat_map (fun zfn => visits_of_zip labels (snd zfn)) zipfiles.

(** The two accumulators [_images] and [_labels] after the images [imgs]
    read at the visits [vs] have been resized and appended. *)
Definition extend
  (interp : bool -> image -> nat * nat -> nat -> nat -> Q)
  (acc : list fimage * list Z) (imgs : list image) (vs : list visit)
  : list fimage * list Z :=
  (fst acc ++ map (fun img => resize interp img (64%nat, 64%nat) true) imgs,
   snd acc ++ map visit_label vs).


(** An image as it is written: resized to 64 x 64, a channel axis added,
    every entry cast to uint8. *)
Definition written_image
  (interp : bool -> image -> nat * nat -> nat -> nat -> Q) (img : image)
  : list (list (list Z)) :=
  map (map (fun v => [astype_uint8 v]))
      (resize interp img (64%nat, 64%nat) true).

(* ===================================================================== *)
(** * Concrete inputs used in the examples *)
(* ===================================================================== *)

(** A one-frame movie of 4 x 4 pixels; the pixel at row r, column c is
    10 r + c. *)
Definition frame4 : image :=
  [[0; 1; 2; 3]; [10; 11; 12; 13]; [20; 21; 22; 23]; [30; 31; 32; 33]].
Definition GFP4 : Layer :=
  mkLayer ImageLayer "GFP" true [("filename", "movie.tif")] [frame4] uint8.

(** Two annotated points on [GFP4], both with a 2 x 2 crop inside the
    frame. *)
Definition two_points : Points :=
  mkPoints [[0; 2; 2]; [0; 1; 3]]%Q 3 ["Metaphase"; "Anaphase"].

(** One point two pixels above the top edge of [GFP4]: its 2 x 2 crop
    window covers the rows -3 and -2. *)
Definition point_above_frame : Points :=
  mkPoints [[0; -2 # 1; 2]]%Q 3 ["Metaphase"].

(** A directory with one exported session: the two patches of
    [two_points]; a reader that decodes 8- and 16-bit unsigned TIFFs and no
    other; and the interpolation that copies the pixel at the same
    position (0 outside the source). *)
Definition session_T : archive :=
  [("Metaphase/Metaphase_T_0.tif", Tiff uint8 [[11; 12]; [21; 22]]);
   ("Anaphase/Anaphase_T_1.tif", Tiff uint8 [[2; 3]; [12; 13]]);
   ("annotation_T.json", Text [("shape", JInt 2)])].

Definition root_T : list (string * archive) :=
  [("annotation_T.zip", session_T); ("notes.txt", [])].

Definition decodes_8_16 (dt : dtype) : bool :=
  match dt with
  | uint8 | uint16 => true
  | _ => false
  end.

Definition copy_interp (preserve_range : bool) (img : image)
  (output_shape : nat * nat) (i j : nat) : Q :=
  inject_Z (nth j (nth i img []) 0).

(** Frames for the default patch size: the pixel at row r, column c is
    (r + c) mod 256. *)
Definition gradient (H W : nat) : image :=
  map (fun r => map (fun c => (Z.of_nat r + Z.of_nat c) mod 256) (seq 0 W))
      (seq 0 H).


Definition GFP66 : Layer :=
  mkLayer ImageLayer "GFP" true [("filename", "movie.tif")] [gradient 66 64]
    uint8.



Definition second_point_outside : Points :=
  mkPoints [[0; 2; 2]; [0; 4; 2]; [0; 1; 1]]%Q 3
    ["Metaphase"; "Anaphase"; "Apoptosis"].


(** An archive with a member that sits under a label but holds no TIFF. *)
Definition broken_session : archive :=
  [("Interphase/Interphase_T_0.tif", Tiff uint8 [[1; 2]; [3; 4]]);
   ("Metaphase/notes.tif", Text []);
   ("Anaphase/Anaphase_T_2.tif", Tiff uint8 [[5; 6]; [7; 8]])].

(** [GFP4] held as a 64-bit integer array. *)
Definition GFP4_int64 : Layer :=
  mkLayer ImageLayer "GFP" true [("filename", "movie.tif")] [frame4] int64.

(* ===================================================================== *)
(** * Facts about slicing and indexing *)
(* ===================================================================== *)

Section SliceFacts.
Context {A : Type}.
Implicit Types (l : list A).

Lemma slice_bound_range len i :
  0 <= len -> 0 <= slice_bound len i <= len.
Proof. unfold slice_bound. destruct (i <? 0) eqn:E; lia. Qed.

Lemma slice_length l a b :
  Z.of_nat (length (slice l a b)) =
  Z.max 0 (slice_bound (Z.of_nat (length l)) b
           - slice_bound (Z.of_nat (length l)) a).
Proof.
  unfold slice. cbv zeta.
  pose proof (slice_bound_range (Z.of_nat (length l)) a ltac:(lia)).
  pose proof (slice_bound_range (Z.of_nat (length l)) b ltac:(lia)).
  rewrite length_firstn, length_skipn. lia.
Qed.

Lemma slice_window_length l c pad :
  0 <= pad -> Z.of_nat (length (slice l (c - pad) (c + pad))) <= 2 * pad.
Proof.
  intros Hpad. rewrite slice_length. unfold slice_bound.
  destruct (c - pad <? 0) eqn:E1; destruct (c + pad <? 0) eqn:E2; lia.
Qed.

Lemma slice_inside l a b :
  0 <= a -> a <= b -> b <= Z.of_nat (length l) ->
  slice l a b = firstn (Z.to_nat (b - a)) (skipn (Z.to_nat a) l).
Proof.
  intros Ha Hab Hb. unfold slice, slice_bound. cbv zeta.
  replace (a <? 0) with false by lia.
  replace (b <? 0) with false by lia.
  rewrite !Z.min_l by lia. reflexivity.
Qed.

Lemma slice_inside_nth l a b i :
  0 <= a -> a <= b -> b <= Z.of_nat (length l) ->
  0 <= i < b - a ->
  nth_error (slice l a b) (Z.to_nat i) = nth_error l (Z.to_nat (a + i)).
Proof.
  intros Ha Hab Hb Hi. rewrite slice_inside by assumption.
  rewrite nth_error_firstn.
  replace (Z.to_nat i <? Z.to_nat (b - a))%nat with true
    by (symmetry; apply Nat.ltb_lt; lia).
  rewrite nth_error_skipn. f_equal. lia.
Qed.

Lemma slice_In l a b x : In x (slice l a b) -> In x l.
Proof.
  unfold slice. cbv zeta. intros Hin.
  set (n := Z.to_nat _) in Hin. set (lo := Z.to_nat _) in Hin.
  rewrite <- (firstn_skipn lo l). apply in_or_app. right.
  rewrite <- (firstn_skipn n (skipn lo l)). apply in_or_app. left.
  exact Hin.
Qed.

Lemma index_inside l i :
  0 <= i < Z.of_nat (length l) ->
  exists x, index l i = Ok x /\ nth_error l (Z.to_nat i) = Some x.
Proof.
  intros Hi. unfold index. cbv zeta.
  replace (i <? 0) with false by lia.
  replace ((0 <=? i) && (i <? Z.of_nat (length l))) with true
    by (symmetry; apply andb_true_iff; lia).
  destruct (nth_error l (Z.to_nat i)) eqn:E; eauto.
  apply nth_error_None in E. lia.
Qed.
End SliceFacts.

(* ===================================================================== *)
(** * [get_image_patch] *)
(* ===================================================================== *)

Lemma shape_two_dims rows s1 s2 :
  Np.shape rows = [s1; s2] ->
  Z.of_nat (length rows) = s1 /\ rows <> [] /\
  Forall (fun r => Z.of_nat (length r) = s2) rows.
Proof.
  unfold Np.shape. destruct rows as [|r rs]; [discriminate|].
  destruct (forallb _ rs) eqn:E; [|discriminate].
  intros Heq. injection Heq as H1 H2. repeat split; try assumption.
  - discriminate.
  - constructor; [assumption|].
    rewrite forallb_forall in E. apply Forall_forall. intros r' Hin.
    apply E in Hin. apply Nat.eqb_eq in Hin. lia.
Qed.

Lemma shape_rectangular rows (k m : nat) :
  (0 < k)%nat -> length rows = k ->
  Forall (fun r => length r = m) rows ->
  Np.shape rows = [Z.of_nat k; Z.of_nat m].
Proof.
  intros Hk Hlen Hall. unfold Np.shape.
  destruct rows as [|r rs]; [simpl in Hlen; lia|].
  inversion Hall as [|? ? Hr Hrs]; subst.
  replace (forallb _ rs) with true; [reflexivity|].
  symmetry. apply forallb_forall. intros r' Hin.
  rewrite Forall_forall in Hrs. apply Nat.eqb_eq. rewrite (Hrs _ Hin).
  reflexivity.
Qed.

Lemma odd_half shape : Z.odd shape = true -> shape = 2 * (shape / 2) + 1.
Proof.
  intros Hodd. pose proof (Z.div_mod shape 2 ltac:(lia)) as Hdm.
  rewrite Zmod_odd, Hodd in Hdm. exact Hdm.
Qed.

Lemma even_half shape : Z.even shape = true -> shape = 2 * (shape / 2).
Proof.
  intros Hev. pose proof (Z.div_mod shape 2 ltac:(lia)) as Hdm.
  rewrite Zmod_even, Hev in Hdm. lia.
Qed.

Lemma get_image_patch_unfold L rest t y x shape img :
  index (data L) (int_of_float t) = Ok img ->
  get_image_patch (L :: rest) [t; y; x] shape =
  let pad := shape / 2 in
  let patch :=
    map (fun row => slice row (int_of_float x - pad) (int_of_float x + pad))
        (slice img (int_of_float y - pad) (int_of_float y + pad)) in
  if list_eq_dec Z.eq_dec (Np.shape patch) [shape; shape]
  then Ok patch
  else Raise (ValueError_patch_shape (Np.shape patch)).
Proof.
  intros Hidx. unfold get_image_patch. simpl map. cbv zeta.
  change (index (L :: rest) 0) with (Ok (A := Layer) L).
  unfold bind at 1. rewrite Hidx. reflexivity.
Qed.

Lemma get_image_patch_odd_shape_check L rest t y x shape img :
  Z.odd shape = true ->
  index (data L) (int_of_float t) = Ok img ->
  exists got,
    get_image_patch (L :: rest) [t; y; x] shape
      = Raise (ValueError_patch_shape got) /\
    got <> [shape; shape] /\
    (0 < shape ->
     forall rows cols, got = [rows; cols] -> rows <= shape - 1).
Proof.
  intros Hodd Hidx.
  rewrite (get_image_patch_unfold _ _ _ _ _ _ _ Hidx). cbv zeta.
  set (pad := shape / 2).
  set (patch := map _ _).
  assert (Hrows : forall rows cols,
             Np.shape patch = [rows; cols] ->
             0 <= rows /\ (0 <= pad -> rows <= 2 * pad)).
  { intros rows cols Hs. apply shape_two_dims in Hs as (Hlen & _ & _).
    subst patch. rewrite length_map in Hlen. split; [lia|]. intros Hpad.
    rewrite <- Hlen. apply slice_window_length. exact Hpad. }
  pose proof (odd_half _ Hodd) as Hhalf. fold pad in Hhalf.
  assert (Hne : Np.shape patch <> [shape; shape]).
  { intros Heq. destruct (Hrows _ _ Heq) as [H0 Hle].
    assert (Hpad : 0 <= pad) by lia. specialize (Hle Hpad). lia. }
  exists (Np.shape patch). destruct (list_eq_dec _ _ _) as [Heq|_].
  - contradiction.
  - repeat split; try assumption.
    intros Hpos rows cols Hs. destruct (Hrows _ _ Hs) as [H0 Hle].
    assert (Hpad : 0 <= pad) by lia. specialize (Hle Hpad). lia.
Qed.

(** What a call that returns has gone through. *)
Lemma get_image_patch_ok_inv layers coords shape patch :
  get_image_patch layers coords shape = Ok patch ->
  exists L rest t y x img,
    layers = L :: rest /\ coords = [t; y; x] /\
    index (data L) (int_of_float t) = Ok img.
Proof.
  unfold get_image_patch.
  destruct coords as [|t [|y [|x [|? ?]]]]; simpl map; try discriminate.
  cbv zeta. destruct layers as [|L rest]; [discriminate|].
  change (index (L :: rest) 0) with (Ok (A := Layer) L). unfold bind at 1.
  destruct (index (data L) (int_of_float t)) as [img|e] eqn:E;
    [|discriminate].
  intros _. exists L, rest, t, y, x, img. auto.
Qed.

(** C8, amended: the frame index has to select a frame.  For an odd patch
    size [shape], [get_image_patch] never returns a patch, whatever the
    layers and the coordinates; and for every frame [img] of the movie and
    every point [(t, y, x)] on that frame, whatever [y] and [x] are, what
    it raises is the [ValueError] of the shape check: the shape it reports
    is never [(shape, shape)], and for a positive [shape] the crop has at
    most [shape - 1] rows, because the window
    [y - shape // 2 : y + shape // 2] spans [2 * (shape // 2) = shape - 1]
    rows. *)
Theorem get_image_patch_odd_shape_raises :
  forall (layers : list Layer) (coords : list Q) (shape : Z),
    Z.odd shape = true ->
    (exists e, get_image_patch layers coords shape = Raise e) /\
    forall (L : Layer) (rest : list Layer) (t y x : Q) (img : image),
      layers = L :: rest -> coords = [t; y; x] ->
      index (data L) (int_of_float t) = Ok img ->
      exists got,
        get_image_patch layers coords shape
          = Raise (ValueError_patch_shape got) /\
        got <> [shape; shape] /\
        (0 < shape ->
         forall rows cols, got = [rows; cols] -> rows <= shape - 1).
Proof.
  intros layers coords shape Hodd. split.
  - destruct (get_image_patch layers coords shape) as [patch|e] eqn:E;
      [exfalso|eauto].
    destruct (get_image_patch_ok_inv _ _ _ _ E)
      as (L & rest & t & y & x & img & -> & -> & Hidx).
    destruct (get_image_patch_odd_shape_check L rest t y x shape img
                Hodd Hidx) as (got & Hraise & _).
    congruence.
  - intros L rest t y x img -> -> Hidx.
    exact (get_image_patch_odd_shape_check L rest t y x shape img Hodd Hidx).
Qed.

Lemma get_image_patch_odd_shape_raises_witness :
  exists got,
    get_image_patch [GFP4] [0; 1; 1]%Q 3 = Raise (ValueError_patch_shape got) /\
    got <> [3; 3].
Proof.
  destruct (get_image_patch_odd_shape_raises [GFP4] [0; 1; 1]%Q 3 eq_refl)
    as (_ & Hcheck).
  destruct (Hcheck GFP4 [] 0%Q 1%Q 1%Q frame4 eq_refl eq_refl eq_refl)
    as (got & Hrun & Hne & _).
  exists got. split; assumption.
Defined.

(** With an odd size and a frame index past the end of the movie the call
    raises [IndexError], from [layers[0].data[frame]], before any crop is
    made. *)
Lemma get_image_patch_frame_out_of_range :
  Z.odd 3 = true /\
  get_image_patch [GFP4] [5; 1; 1]%Q 3 = Raise IndexError /\
  is_ValueError IndexError = false.
Proof. repeat split. Qed.

Lemma int_of_float_inject_Z z : int_of_float (inject_Z z) = z.
Proof. unfold int_of_float. simpl. apply Z.quot_1_r. Qed.

Lemma int_of_float_nonneg q : (0 <= q)%Q -> int_of_float q = Qfloor q.
Proof.
  destruct q as [n d]. unfold Qle, int_of_float, Qfloor. simpl.
  intros Hn. apply Z.quot_div_nonneg; lia.
Qed.

Lemma at2_inside (a : image) r c row :
  0 <= r -> 0 <= c ->
  nth_error a (Z.to_nat r) = Some row ->
  at2 a r c = nth_error row (Z.to_nat c).
Proof.
  intros Hr Hc Hrow. unfold at2.
  replace ((0 <=? r) && (0 <=? c)) with true
    by (symmetry; apply andb_true_iff; lia).
  rewrite Hrow. reflexivity.
Qed.

(** C2, amended: the patch size is positive.  For every movie of [H] x [W]
    frames, every integer point [(t, y, x)] with [t] a frame of the movie
    and every positive even [shape] whose crop window
    [y - shape // 2 .. y + shape // 2) x [x - shape // 2 .. x + shape // 2)
    lies inside the frame (the point is then inside the frame as well),
    [get_image_patch] returns a patch of shape [(shape, shape)] whose entry
    [(i, j)] is the frame pixel at row [y - shape // 2 + i], column
    [x - shape // 2 + j]; the patch depends on nothing but the movie of the
    first layer, the point and the size. *)
Theorem get_image_patch_centred_crop :
  forall (L : Layer) (rest : list Layer) (H W : nat) (t y x shape : Z),
    wf_movie H W (data L) ->
    0 <= t < Z.of_nat (length (data L)) ->
    0 < shape -> Z.even shape = true ->
    0 <= y - shape / 2 -> y + shape / 2 <= Z.of_nat H ->
    0 <= x - shape / 2 -> x + shape / 2 <= Z.of_nat W ->
    exists frame patch,
      nth_error (data L) (Z.to_nat t) = Some frame /\
      get_image_patch (L :: rest) [inject_Z t; inject_Z y; inject_Z x] shape
        = Ok patch /\
      Np.shape patch = [shape; shape] /\
      (forall i j, 0 <= i < shape -> 0 <= j < shape ->
         exists v, at2 patch i j = Some v /\
                   at2 frame (y - shape / 2 + i) (x - shape / 2 + j) = Some v) /\
      (forall L' rest', data L' = data L ->
         get_image_patch (L' :: rest') [inject_Z t; inject_Z y; inject_Z x] shape
           = Ok patch).
Proof.
  intros L rest H W t y x shape Hwf Ht Hpos Hev Hy0 Hy1 Hx0 Hx1.
  destruct (index_inside (data L) t Ht) as (frame & Hidx & Hnth).
  pose proof (even_half _ Hev) as Hhalf.
  set (pad := shape / 2) in *.
  assert (Hpad : 0 < pad) by lia.
  assert (Hframe : wf_image H W frame).
  { unfold wf_movie in Hwf. rewrite Forall_forall in Hwf.
    apply Hwf. eapply nth_error_In; eauto. }
  destruct Hframe as [HH HW]. rewrite Forall_forall in HW.
  set (rows := slice frame (y - pad) (y + pad)).
  set (patch := map (fun row => slice row (x - pad) (x + pad)) rows).
  assert (Hrows_len : length rows = Z.to_nat shape).
  { apply Nat2Z.inj. subst rows. rewrite slice_length.
    unfold slice_bound. rewrite HH.
    replace (y - pad <? 0) with false by lia.
    replace (y + pad <? 0) with false by lia. lia. }
  assert (Hrows_in : forall row, In row rows -> length row = W).
  { intros row Hin. apply HW. subst rows. eapply slice_In; eauto. }
  assert (Hcols : Forall (fun r => length r = Z.to_nat shape) patch).
  { apply Forall_forall. intros r Hin. subst patch.
    apply in_map_iff in Hin as (row & <- & Hin).
    apply Nat2Z.inj. rewrite slice_length. unfold slice_bound.
    rewrite (Hrows_in _ Hin).
    replace (x - pad <? 0) with false by lia.
    replace (x + pad <? 0) with false by lia. lia. }
  assert (Hshape : Np.shape patch = [shape; shape]).
  { rewrite (shape_rectangular patch (Z.to_nat shape) (Z.to_nat shape)).
    - rewrite Z2Nat.id by lia. reflexivity.
    - lia.
    - subst patch. rewrite length_map. exact Hrows_len.
    - exact Hcols. }
  assert (Hrun : forall L' rest', data L' = data L ->
            get_image_patch (L' :: rest')
              [inject_Z t; inject_Z y; inject_Z x] shape = Ok patch).
  { intros L' rest' Hdata.
    rewrite (get_image_patch_unfold L' rest' _ _ _ _ frame)
      by (rewrite int_of_float_inject_Z, Hdata; exact Hidx).
    cbv zeta. rewrite !int_of_float_inject_Z. fold pad. fold rows. fold patch.
    destruct (list_eq_dec _ _ _) as [_|Hne]; [reflexivity|contradiction]. }
  exists frame, patch. repeat split; auto.
  intros i j Hi Hj.
  assert (Hrow : nth_error rows (Z.to_nat i)
                 = nth_error frame (Z.to_nat (y - pad + i))).
  { subst rows. apply slice_inside_nth; lia. }
  destruct (nth_error frame (Z.to_nat (y - pad + i))) as [row|] eqn:Erow.
  2:{ apply nth_error_None in Erow. lia. }
  assert (HrowW : length row = W) by (apply HW; eapply nth_error_In; eauto).
  rewrite (at2_inside frame _ _ row) by (try lia; assumption).
  rewrite (at2_inside patch i j (slice row (x - pad) (x + pad)));
    try lia.
  2:{ subst patch. rewrite nth_error_map, Hrow. reflexivity. }
  rewrite slice_inside_nth by lia.
  destruct (nth_error row (Z.to_nat (x - pad + j))) as [v|] eqn:Ev.
  - exists v. split; reflexivity.
  - apply nth_error_None in Ev. lia.
Qed.

Lemma get_image_patch_centred_crop_witness :
  exists frame patch,
    nth_error (data GFP4) (Z.to_nat 0) = Some frame /\
    get_image_patch [GFP4] [inject_Z 0; inject_Z 2; inject_Z 2] 2 = Ok patch /\
    Np.shape patch = [2; 2].
Proof.
  destruct (get_image_patch_centred_crop GFP4 [] 4 4 0 2 2 2)
    as (frame & patch & Hframe & Hrun & Hshape & _).
  - repeat constructor.
  - simpl. lia.
  - lia.
  - reflexivity.
  - simpl. lia.
  - simpl. lia.
  - simpl. lia.
  - simpl. lia.
  - exists frame, patch. repeat split; assumption.
Defined.

(** The patch size 0 is even and its (empty) window lies inside the frame,
    yet the call raises: [np.array([])] has shape [(0,)], not [(0, 0)]. *)
Lemma get_image_patch_size_zero_raises :
  wf_movie 4 4 (data GFP4) /\
  Z.even 0 = true /\
  0 <= 1 - 0 / 2 /\ 1 + 0 / 2 <= 4 /\
  get_image_patch [GFP4] [inject_Z 0; inject_Z 1; inject_Z 1] 0
    = Raise (ValueError_patch_shape [0]).
Proof.
  repeat split; try (vm_compute; congruence).
  repeat constructor.
Qed.

(** C9.  For every point with non-negative coordinates [(t, y, x)],
    [get_image_patch] gives the same result (the same patch, or the same
    exception) as for the integer point [(floor t, floor y, floor x)]: the
    fractional parts are dropped, never interpolated or rounded. *)
Theorem get_image_patch_truncates_coordinates :
  forall (layers : list Layer) (t y x : Q) (shape : Z),
    (0 <= t)%Q -> (0 <= y)%Q -> (0 <= x)%Q ->
    get_image_patch layers [t; y; x] shape
    = get_image_patch layers
        [inject_Z (Qfloor t); inject_Z (Qfloor y); inject_Z (Qfloor x)] shape.
Proof.
  intros layers t y x shape Ht Hy Hx. unfold get_image_patch. simpl map.
  rewrite !int_of_float_inject_Z, !int_of_float_nonneg by assumption.
  reflexivity.
Qed.

Lemma get_image_patch_truncates_coordinates_witness :
  get_image_patch [GFP4] [0; 5 # 2; 7 # 3]%Q 2
  = get_image_patch [GFP4]
      [inject_Z (Qfloor 0); inject_Z (Qfloor (5 # 2));
       inject_Z (Qfloor (7 # 3))] 2.
Proof.
  apply (get_image_patch_truncates_coordinates [GFP4] 0%Q (5 # 2)%Q (7 # 3)%Q 2);
    unfold Qle; simpl; lia.
Defined.

(* ===================================================================== *)
(** * The key bindings *)
(* ===================================================================== *)

(** C5.  From every state, [.] selects the state whose value is
    [(v + 1) mod 5] and [,] the one whose value is [(v - 1) mod 5]; one key
    after the other, in either order, restores the state, and so do five
    presses of the same key. *)
Theorem label_cycling_wraps_modulo_5 :
  forall g : Gui,
    (exists g', next_label g = Ok g' /\
                value (state g') = (value (state g) + 1) mod 5) /\
    (exists g', previous_label g = Ok g' /\
                value (state g') = (value (state g) - 1) mod 5) /\
    (exists g', bind (next_label g) previous_label = Ok g' /\
                state g' = state g) /\
    (exists g', bind (previous_label g) next_label = Ok g' /\
                state g' = state g) /\
    (exists g', press next_label 5 g = Ok g' /\ state g' = state g) /\
    (exists g', press previous_label 5 g = Ok g' /\ state g' = state g).
Proof.
  intros [s].
  destruct s; repeat split; eexists; split; vm_compute; reflexivity.
Qed.

(* ===================================================================== *)
(** * Strings and dictionaries *)
(* ===================================================================== *)

Lemma str_nat_inj n m : str_nat n = str_nat m -> n = m.
Proof.
  unfold str_nat. intros Heq.
  assert (Hu : Nat.to_uint n = Nat.to_uint m).
  { pose proof (NilEmpty.usu (Nat.to_uint n)) as H1.
    pose proof (NilEmpty.usu (Nat.to_uint m)) as H2.
    rewrite Heq in H1. congruence. }
  rewrite <- (DecimalNat.Unsigned.of_to n), <- (DecimalNat.Unsigned.of_to m).
  congruence.
Qed.

Lemma append_inj_l (p a b : string) : (p ++ a = p ++ b)%string -> a = b.
Proof. induction p; simpl; intros Heq; [assumption|]. injection Heq; auto. Qed.

Lemma length_append (a b : string) :
  String.length (a ++ b) = (String.length a + String.length b)%nat.
Proof. induction a; simpl; congruence. Qed.

Lemma append_inj_r (a b s : string) : (a ++ s = b ++ s)%string -> a = b.
Proof.
  revert b. induction a as [|c a IH]; intros [|d b] Heq; simpl in *.
  - reflexivity.
  - apply (f_equal String.length) in Heq. simpl in Heq.
    rewrite length_append in Heq. lia.
  - apply (f_equal String.length) in Heq. simpl in Heq.
    rewrite length_append in Heq. lia.
  - injection Heq as -> Heq. f_equal. auto.
Qed.

Lemma prefix_append (p s : string) : String.prefix p (p ++ s) = true.
Proof.
  induction p as [|c p IH]; simpl.
  - destruct s; reflexivity.
  - destruct (ascii_dec c c); [assumption|contradiction].
Qed.


Lemma endswith_append (a suf : string) : endswith (a ++ suf) suf = true.
Proof.
  induction a as [|c a IH].
  - destruct suf; cbn -[String.eqb]; rewrite String.eqb_refl; reflexivity.
  - cbn -[String.eqb]. rewrite IH. apply orb_true_r.
Qed.

Section DictFacts.
Implicit Types (d : dict) (k : string) (v : json).

Lemma keys_dict_set d k v k' :
  In k' (keys (dict_set d k v)) <-> k' = k \/ In k' (keys d).
Proof.
  induction d as [|[k0 v0] d IH]; simpl.
  - intuition congruence.
  - destruct (String.eqb_spec k0 k) as [->|Hne]; simpl.
    + intuition congruence.
    + unfold keys in IH. rewrite IH. intuition congruence.
Qed.

Lemma NoDup_dict_set d k v :
  NoDup (keys d) -> NoDup (keys (dict_set d k v)).
Proof.
  induction d as [|[k0 v0] d IH]; simpl; intros Hnd.
  - repeat constructor. intros [].
  - inversion Hnd as [|? ? Hnotin Hnd']; subst.
    destruct (String.eqb_spec k0 k) as [->|Hne]; simpl.
    + constructor; assumption.
    + constructor; [|apply IH; assumption].
      intros Hin. apply keys_dict_set in Hin as [->|Hin]; contradiction.
Qed.

Lemma dict_get_set_same d k v : dict_get (dict_set d k v) k = Some v.
Proof.
  unfold dict_get. induction d as [|[k0 v0] d IH]; simpl.
  - rewrite String.eqb_refl. reflexivity.
  - destruct (String.eqb_spec k0 k) as [->|Hne]; simpl.
    + rewrite String.eqb_refl. reflexivity.
    + destruct (String.eqb_spec k0 k); [contradiction|exact IH].
Qed.

Lemma dict_get_set_other d k v k' :
  k' <> k -> dict_get (dict_set d k v) k' = dict_get d k'.
Proof.
  intros Hne. unfold dict_get.
  induction d as [|[k0 v0] d IH]; simpl.
  - destruct (String.eqb_spec k k'); [congruence|reflexivity].
  - destruct (String.eqb_spec k0 k) as [->|Hne0]; simpl.
    + destruct (String.eqb_spec k k'); [congruence|reflexivity].
    + destruct (String.eqb_spec k0 k'); [reflexivity|exact IH].
Qed.
End DictFacts.

(* ===================================================================== *)
(** * The export *)
(* ===================================================================== *)

Lemma index_nat {A} (l : list A) (i : nat) (x : A) :
  index l (Z.of_nat i) = Ok x <-> nth_error l i = Some x.
Proof.
  unfold index. cbv zeta.
  replace (Z.of_nat i <? 0) with false by (symmetry; apply Z.ltb_ge; lia).
  rewrite Nat2Z.id.
  destruct ((0 <=? Z.of_nat i) && (Z.of_nat i <? Z.of_nat (length l))) eqn:E.
  - destruct (nth_error l i); split; congruence.
  - split; [discriminate|]. intros Hnth.
    assert (i < length l)%nat by (apply nth_error_Some; congruence).
    apply andb_false_iff in E. lia.
Qed.

Lemma enumerate_from_nth {A} (l : list A) : forall n i,
  nth_error (enumerate_from n l) i
  = option_map (pair (n + i)%nat) (nth_error l i).
Proof.
  induction l as [|a l IH]; intros n [|i]; simpl; try reflexivity.
  - rewrite Nat.add_0_r. reflexivity.
  - rewrite IH. replace (S n + i)%nat with (n + S i)%nat by lia. reflexivity.
Qed.

Lemma enumerate_length {A} (l : list A) n :
  length (enumerate_from n l) = length l.
Proof. revert n. induction l; simpl; intros; [reflexivity|f_equal; auto]. Qed.

Section WritePatches.
Variables (image_layers : list Layer) (states : list string)
          (SESSION_TIME : string) (shape : Z).

Lemma write_patches_ok : forall todo myzip out,
  write_patches image_layers states SESSION_TIME shape todo myzip
    = (out, Ok tt) ->
  exists written,
    out = myzip ++ written /\
    length written = length todo /\
    forall i idx coords,
      nth_error todo i = Some (idx, coords) ->
      exists label patch,
        nth_error states idx = Some label /\
        get_image_patch image_layers coords shape = Ok patch /\
        nth_error written i
        = Some (image_patch_fn label SESSION_TIME idx,
                Tiff (patch_dtype image_layers) patch).
Proof.
  induction todo as [|[idx coords] todo IH]; intros myzip out Hrun;
    simpl in Hrun.
  - injection Hrun as <-. exists []. rewrite app_nil_r.
    repeat split. intros [|i]; discriminate.
  - destruct (index states (Z.of_nat idx)) as [label|e] eqn:Elabel;
      simpl in Hrun; [|discriminate].
    destruct (get_image_patch image_layers coords shape) as [patch|e]
      eqn:Epatch; simpl in Hrun; [|discriminate].
    apply IH in Hrun as (written & -> & Hlen & Hnth).
    exists ((image_patch_fn label SESSION_TIME idx,
             Tiff (patch_dtype image_layers) patch) :: written).
    rewrite <- app_assoc. simpl. repeat split; [congruence|].
    intros [|i] idx' coords' Hi; simpl in Hi.
    + injection Hi as <- <-. exists label, patch.
      apply index_nat in Elabel. auto.
    + apply Hnth in Hi. exact Hi.
Qed.
End WritePatches.

Section ExportData.
Variables (points_layer : Points) (use_visible_layers : bool).

Lemma keys_add_layers : forall ls d k,
  In k (keys (fold_left (add_layer use_visible_layers) ls d)) <->
  In k (keys d) \/
  exists layer, In layer ls /\
    use_visible_layers && visible layer = true /\ lname layer = k.
Proof.
  induction ls as [|l ls IH]; intros d k; simpl.
  - split; [auto|]. intros [H|(layer & [] & _)]. exact H.
  - rewrite IH. unfold add_layer.
    destruct (use_visible_layers && visible l) eqn:E.
    + rewrite keys_dict_set. split.
      * intros [[->|H]|(layer & Hin & Hv & Hn)]; eauto 6.
      * intros [H|(layer & [<-|Hin] & Hv & Hn)]; eauto 6.
    + split.
      * intros [H|(layer & Hin & Hv & Hn)]; eauto 6.
      * intros [H|(layer & [<-|Hin] & Hv & Hn)]; eauto 6. congruence.
Qed.

Lemma NoDup_add_layers : forall ls d,
  NoDup (keys d) -> NoDup (keys (fold_left (add_layer use_visible_layers) ls d)).
Proof.
  induction ls as [|l ls IH]; intros d Hnd; simpl; [assumption|].
  apply IH. unfold add_layer.
  destruct (use_visible_layers && visible l);
    [apply NoDup_dict_set|]; assumption.
Qed.

Lemma keys_add_coords : forall dims d k,
  In k (keys (fold_left (add_coords points_layer) dims d)) <->
  In k (keys d) \/
  exists dim, In dim dims /\ k = ("coords-" ++ str_nat dim)%string.
Proof.
  induction dims as [|n dims IH]; intros d k; simpl.
  - split; [auto|]. intros [H|(dim & [] & _)]. exact H.
  - rewrite IH. unfold add_coords. rewrite keys_dict_set. split.
    + intros [[->|H]|(dim & Hin & Hk)]; eauto 6.
    + intros [H|(dim & [<-|Hin] & Hk)]; eauto 6.
Qed.

Lemma NoDup_add_coords : forall dims d,
  NoDup (keys d) -> NoDup (keys (fold_left (add_coords points_layer) dims d)).
Proof.
  induction dims as [|n dims IH]; intros d Hnd; simpl; [assumption|].
  apply IH. unfold add_coords. apply NoDup_dict_set. assumption.
Qed.

Lemma get_add_coords_other : forall dims d k,
  (forall dim, In dim dims -> k <> ("coords-" ++ str_nat dim)%string) ->
  dict_get (fold_left (add_coords points_layer) dims d) k = dict_get d k.
Proof.
  induction dims as [|n dims IH]; intros d k Hk; simpl; [reflexivity|].
  rewrite IH by (intros dim Hin; apply Hk; right; exact Hin).
  unfold add_coords. apply dict_get_set_other. apply Hk. left. reflexivity.
Qed.

Lemma get_add_coords : forall dims d dim,
  NoDup dims -> In dim dims ->
  dict_get (fold_left (add_coords points_layer) dims d) ("coords-" ++ str_nat dim)%string
  = Some (JFloats (column dim (pdata points_layer))).
Proof.
  induction dims as [|n dims IH]; intros d dim Hnd Hin; simpl.
  - destruct Hin.
  - inversion Hnd as [|? ? Hnotin Hnd']; subst.
    destruct (Nat.eq_dec n dim) as [->|Hne].
    + rewrite get_add_coords_other.
      * unfold add_coords. apply dict_get_set_same.
      * intros dim' Hin' Heq.
        assert (Hs : str_nat dim = str_nat dim')
          by (apply (append_inj_l "coords-"); exact Heq).
        apply str_nat_inj in Hs. subst. contradiction.
    + destruct Hin as [->|Hin]; [contradiction|]. apply IH; assumption.
Qed.

Lemma build_export_data_eq layers shape :
  build_export_data layers points_layer shape use_visible_layers
  = dict_set
      (fold_left (add_coords points_layer) (seq 0 (pndim points_layer))
         (fold_left (add_layer use_visible_layers) (filter isinstance_Image layers)
            [("shape", JInt shape)]))
      "labels" (JStrings (State points_layer)).
Proof. reflexivity. Qed.

Lemma build_export_data_keys layers shape k :
  In k (keys (build_export_data layers points_layer shape
                use_visible_layers)) <->
  k = "shape" \/
  (use_visible_layers = true /\
   exists layer, In layer layers /\ isinstance_Image layer = true /\
                 visible layer = true /\ lname layer = k) \/
  (exists dim, (dim < pndim points_layer)%nat /\
               k = ("coords-" ++ str_nat dim)%string) \/
  k = "labels".
Proof.
  rewrite build_export_data_eq, keys_dict_set, keys_add_coords,
    keys_add_layers. simpl. split.
  - intros [->|[[[<-|[]]|(layer & Hin & Hv & Hn)]|(dim & Hin & ->)]]; auto.
    + right; left. apply filter_In in Hin as [Hin Himg].
      apply andb_true_iff in Hv as [-> Hv]. eauto 8.
    + right; right; left. exists dim. apply in_seq in Hin. split; [lia|auto].
  - intros [->|[(Huse & layer & Hin & Himg & Hv & Hn)|[(dim & Hlt & ->)| ->]]];
      auto.
    + right; left; right. exists layer. repeat split; auto.
      * apply filter_In. auto.
      * rewrite Huse, Hv. reflexivity.
    + right; right. exists dim. split; [apply in_seq; lia|reflexivity].
Qed.

Lemma build_export_data_NoDup layers shape :
  NoDup (keys (build_export_data layers points_layer shape
                 use_visible_layers)).
Proof.
  rewrite build_export_data_eq.
  apply NoDup_dict_set, NoDup_add_coords, NoDup_add_layers.
  simpl. repeat constructor. intros [].
Qed.

Lemma build_export_data_labels layers shape :
  dict_get (build_export_data layers points_layer shape use_visible_layers)
    "labels" = Some (JStrings (State points_layer)).
Proof. rewrite build_export_data_eq. apply dict_get_set_same. Qed.

Lemma build_export_data_coords layers shape dim :
  (dim < pndim points_layer)%nat ->
  dict_get (build_export_data layers points_layer shape use_visible_layers)
    ("coords-" ++ str_nat dim)%string
  = Some (JFloats (column dim (pdata points_layer))).
Proof.
  intros Hlt. rewrite build_export_data_eq.
  rewrite dict_get_set_other by (simpl; discriminate).
  apply get_add_coords; [apply seq_NoDup|apply in_seq; lia].
Qed.

Lemma get_add_layers_other : forall ls d k,
  (forall layer, In layer ls ->
                 use_visible_layers && visible layer = true ->
                 lname layer <> k) ->
  dict_get (fold_left (add_layer use_visible_layers) ls d) k = dict_get d k.
Proof.
  induction ls as [|l ls IH]; intros d k Hk; simpl; [reflexivity|].
  rewrite IH by (intros layer Hin; apply Hk; right; exact Hin).
  unfold add_layer. destruct (use_visible_layers && visible l) eqn:E;
    [|reflexivity].
  apply dict_get_set_other. intros ->.
  apply (Hk l (or_introl eq_refl) E). reflexivity.
Qed.

Lemma get_after_layers layers shape k :
  k <> "labels" ->
  (forall dim, (dim < pndim points_layer)%nat ->
               k <> ("coords-" ++ str_nat dim)%string) ->
  dict_get (build_export_data layers points_layer shape use_visible_layers) k
  = dict_get
      (fold_left (add_layer use_visible_layers)
         (filter isinstance_Image layers) [("shape", JInt shape)]) k.
Proof.
  intros Hl Hc. rewrite build_export_data_eq.
  rewrite dict_get_set_other by exact Hl.
  apply get_add_coords_other. intros dim Hin. apply Hc.
  apply in_seq in Hin. lia.
Qed.

(** ["shape"] keeps the patch size when no exported layer is named
    ["shape"]. *)
Lemma build_export_data_shape layers shape :
  (forall l, In l layers -> isinstance_Image l = true ->
             use_visible_layers && visible l = true ->
             lname l <> "shape") ->
  dict_get (build_export_data layers points_layer shape use_visible_layers)
    "shape" = Some (JInt shape).
Proof.
  intros Hnames. rewrite get_after_layers.
  - rewrite get_add_layers_other; [reflexivity|].
    intros l Hin Hv. apply filter_In in Hin as [Hin Himg]. auto.
  - discriminate.
  - intros dim _. simpl. discriminate.
Qed.

(** The metadata of an exported layer is found under its name when nothing
    written later goes under the same key. *)
Lemma build_export_data_metadata before layer after shape :
  isinstance_Image layer = true ->
  use_visible_layers && visible layer = true ->
  lname layer <> "labels" ->
  (forall dim, (dim < pndim points_layer)%nat ->
               lname layer <> ("coords-" ++ str_nat dim)%string) ->
  (forall l, In l after -> isinstance_Image l = true ->
             use_visible_layers && visible l = true ->
             lname l <> lname layer) ->
  dict_get (build_export_data (before ++ layer :: after) points_layer shape
              use_visible_layers) (lname layer)
  = Some (JMetadata (metadata layer)).
Proof.
  intros Himg Hvis Hlabels Hcoords Hlater.
  rewrite get_after_layers by assumption.
  rewrite filter_app. simpl. rewrite Himg.
  rewrite fold_left_app. simpl.
  rewrite get_add_layers_other.
  - unfold add_layer. rewrite Hvis. apply dict_get_set_same.
  - intros l Hin Hv. apply filter_In in Hin as [Hin Hi]. auto.
Qed.
End ExportData.

Lemma cnn_annotation_widget_ok layers points_layer SESSION_TIME shape
  use_visible_layers zip :
  cnn_annotation_widget layers points_layer SESSION_TIME shape
    use_visible_layers = (zip, Ok tt) ->
  zname zip = ("annotation_" ++ SESSION_TIME ++ ".zip")%string /\
  exists tiffs : archive,
    members zip
    = tiffs ++ [(("annotation_" ++ SESSION_TIME ++ ".json")%string,
                 Text (build_export_data layers points_layer shape
                         use_visible_layers))] /\
    length tiffs = length (pdata points_layer) /\
    forall idx coords,
      nth_error (pdata points_layer) idx = Some coords ->
      exists label patch,
        nth_error (State points_layer) idx = Some label /\
        get_image_patch (filter isinstance_Image layers) coords shape
          = Ok patch /\
        nth_error tiffs idx
        = Some (image_patch_fn label SESSION_TIME idx,
                Tiff (patch_dtype (filter isinstance_Image layers)) patch).
Proof.
  intros Hrun. unfold cnn_annotation_widget in Hrun. cbv zeta in Hrun.
  destruct (write_patches _ _ _ _ _ _) as [myzip [[]|e]] eqn:Hloop;
    [|discriminate].
  injection Hrun as <-.
  apply write_patches_ok in Hloop as (written & -> & Hlen & Hnth).
  simpl app in *. split; [reflexivity|].
  exists written. split; [reflexivity|].
  split; [rewrite Hlen; apply enumerate_length|].
  intros idx coords Hidx.
  apply (Hnth idx idx coords). unfold enumerate.
  rewrite enumerate_from_nth, Hidx. reflexivity.
Qed.

(** C6, amended: the layer metadata is exported only when
    [use_visible_layers] is set, and an entry written later under the same
    key replaces it.  Every successful export of [n] points leaves an
    archive named [annotation_<time>.zip] whose members are, in order, one
    TIFF per point, the one of point [idx] named
    [<Label>/<Label>_<time>_<idx>.tif] and holding the patch cropped at
    that point, and then [annotation_<time>.json].  The keys of the JSON
    object are exactly ["shape"], the names of the visible image layers
    when [use_visible_layers] is set (none of them otherwise),
    ["coords-<dim>"] for every axis [dim < ndim], and ["labels"]; no key
    occurs twice.  ["shape"] holds the patch size unless an exported layer
    is named ["shape"]; the name of an exported layer holds the metadata of
    that layer unless the name is ["labels"] or a ["coords-<dim>"] key or a
    later exported layer has the same name; ["coords-<dim>"] holds column
    [dim] of the coordinates and ["labels"] the label names in point
    order. *)
Theorem export_archive_layout :
  forall (layers : list Layer) (points_layer : Points)
         (SESSION_TIME : string) (shape : Z) (use_visible_layers : bool)
         (zip : ZipFile),
    cnn_annotation_widget layers points_layer SESSION_TIME shape
      use_visible_layers = (zip, Ok tt) ->
    zname zip = ("annotation_" ++ SESSION_TIME ++ ".zip")%string /\
    exists (tiffs : archive) (export_data : dict),
      members zip
      = tiffs ++ [(("annotation_" ++ SESSION_TIME ++ ".json")%string,
                   Text export_data)] /\
      length tiffs = length (pdata points_layer) /\
      (forall idx coords,
         nth_error (pdata points_layer) idx = Some coords ->
         exists label patch,
           nth_error (State points_layer) idx = Some label /\
           get_image_patch (filter isinstance_Image layers) coords shape
             = Ok patch /\
           nth_error tiffs idx
           = Some ((label ++ "/" ++ label ++ "_" ++ SESSION_TIME ++ "_"
                      ++ str_nat idx ++ ".tif")%string,
                   Tiff (patch_dtype (filter isinstance_Image layers))
                     patch)) /\
      (forall k,
         In k (keys export_data) <->
         k = "shape" \/
         (use_visible_layers = true /\
          exists layer, In layer layers /\ isinstance_Image layer = true /\
                        visible layer = true /\ lname layer = k) \/
         (exists dim, (dim < pndim points_layer)%nat /\
                      k = ("coords-" ++ str_nat dim)%string) \/
         k = "labels") /\
      NoDup (keys export_data) /\
      ((forall l, In l layers -> isinstance_Image l = true ->
                  use_visible_layers = true -> visible l = true ->
                  lname l <> "shape") ->
       dict_get export_data "shape" = Some (JInt shape)) /\
      (forall before layer after,
         layers = before ++ layer :: after ->
         isinstance_Image layer = true ->
         use_visible_layers = true -> visible layer = true ->
         lname layer <> "labels" ->
         (forall dim, (dim < pndim points_layer)%nat ->
                      lname layer <> ("coords-" ++ str_nat dim)%string) ->
         (forall l, In l after -> isinstance_Image l = true ->
                    visible l = true -> lname l <> lname layer) ->
         dict_get export_data (lname layer)
         = Some (JMetadata (metadata layer))) /\
      (forall dim, (dim < pndim points_layer)%nat ->
         dict_get export_data ("coords-" ++ str_nat dim)%string
         = Some (JFloats (column dim (pdata points_layer)))) /\
      dict_get export_data "labels" = Some (JStrings (State points_layer)).
Proof.
  intros layers points_layer SESSION_TIME shape use_visible_layers zip Hrun.
  apply cnn_annotation_widget_ok in Hrun as (Hname & tiffs & Hmem & Hlen & Hnth).
  split; [exact Hname|].
  exists tiffs, (build_export_data layers points_layer shape
                   use_visible_layers).
  split; [exact Hmem|]. split; [exact Hlen|]. split; [exact Hnth|].
  split; [apply build_export_data_keys|].
  split; [apply build_export_data_NoDup|].
  split.
  { intros Hnames. apply build_export_data_shape.
    intros l Hin Himg Hv. apply andb_true_iff in Hv as [Huse Hvis]. auto. }
  split.
  { intros before layer after -> Himg Huse Hvis Hlabels Hcoords Hlater.
    apply build_export_data_metadata; auto.
    - rewrite Huse, Hvis. reflexivity.
    - intros l Hin Hi Hv. apply andb_true_iff in Hv as [_ Hv]. auto. }
  split; [apply build_export_data_coords|apply build_export_data_labels].
Qed.

Lemma export_archive_layout_witness :
  exists zip,
    cnn_annotation_widget [GFP4] two_points "T" 2 true = (zip, Ok tt) /\
    zname zip = "annotation_T.zip" /\
    length (members zip) = 3%nat.
Proof.
  eexists. split; [vm_compute; reflexivity|].
  split.
  - apply (export_archive_layout [GFP4] two_points "T" 2 true).
    vm_compute. reflexivity.
  - reflexivity.
Defined.

(** With [use_visible_layers] unset the export succeeds, and the JSON
    object has no entry for the visible image layer [GFP4]. *)
Lemma export_flag_off_drops_layer_metadata :
  exists (zip : ZipFile) (export_data : dict),
    cnn_annotation_widget [GFP4] two_points "T" 2 false = (zip, Ok tt) /\
    In ("annotation_T.json", Text export_data) (members zip) /\
    In GFP4 [GFP4] /\ isinstance_Image GFP4 = true /\ visible GFP4 = true /\
    ~ In (lname GFP4) (keys export_data).
Proof.
  eexists. eexists. split; [vm_compute; reflexivity|].
  split; [simpl; right; right; left; reflexivity|].
  repeat split; [left; reflexivity|].
  simpl. intros H. repeat destruct H as [H|H]; try discriminate H. exact H.
Qed.

(* ===================================================================== *)
(** * The dataset builder *)
(* ===================================================================== *)

Section MapM.
Context {A B : Type} (f : A -> result B).

Lemma mapM_app l1 l2 :
  mapM f (l1 ++ l2)
  = (r1 <- mapM f l1 ;; r2 <- mapM f l2 ;; Ok (r1 ++ r2)).
Proof.
  induction l1 as [|a l1 IH]; simpl.
  - destruct (mapM f l2); reflexivity.
  - destruct (f a) as [b|e]; simpl; [|reflexivity].
    rewrite IH. destruct (mapM f l1) as [r1|e]; simpl; [|reflexivity].
    destruct (mapM f l2); reflexivity.
Qed.

Lemma mapM_length l r : mapM f l = Ok r -> length r = length l.
Proof.
  revert r. induction l as [|a l IH]; simpl; intros r Hr.
  - injection Hr as <-. reflexivity.
  - destruct (f a) as [b|e]; simpl in Hr; [|discriminate].
    destruct (mapM f l) as [bs|e]; simpl in Hr; [|discriminate].
    injection Hr as <-. simpl. f_equal. auto.
Qed.

Lemma mapM_nth l r i a :
  mapM f l = Ok r -> nth_error l i = Some a ->
  exists b, f a = Ok b /\ nth_error r i = Some b.
Proof.
  revert r i. induction l as [|a0 l IH]; simpl; intros r i Hr Hi.
  - destruct i; discriminate.
  - destruct (f a0) as [b0|e] eqn:E0; simpl in Hr; [|discriminate].
    destruct (mapM f l) as [bs|e]; simpl in Hr; [|discriminate].
    injection Hr as <-. destruct i as [|i]; simpl in *.
    + injection Hi as <-. eauto.
    + eapply IH; eauto.
Qed.

Lemma mapM_Forall2 l r :
  mapM f l = Ok r -> Forall2 (fun a b => f a = Ok b) l r.
Proof.
  revert r. induction l as [|a l IH]; simpl; intros r Hr.
  - injection Hr as <-. constructor.
  - destruct (f a) as [b|e] eqn:E; simpl in Hr; [|discriminate].
    destruct (mapM f l) as [bs|e]; simpl in Hr; [|discriminate].
    injection Hr as <-. constructor; auto.
Qed.

Lemma mapM_total l :
  (forall a, In a l -> exists b, f a = Ok b) -> exists r, mapM f l = Ok r.
Proof.
  induction l as [|a l IH]; simpl; intros Hall.
  - eauto.
  - destruct (Hall a (or_introl eq_refl)) as [b ->].
    destruct IH as [r ->]; [auto|]. simpl. eauto.
Qed.
End MapM.

Lemma mapM_map {A B C} (f : B -> result C) (g : A -> B) l :
  mapM f (map g l) = mapM (fun a => f (g a)) l.
Proof. induction l as [|a l IH]; simpl; [|rewrite IH]; reflexivity. Qed.

Section Loops.
Variable decodes : dtype -> bool.
Variable interp : bool -> image -> nat * nat -> nat -> nat -> Q.

(** A loop whose body appends what it reads from the visits [V a] is the
    loop over all the visits, in order. *)
Lemma foldM_visits {A} (step : list fimage * list Z -> A ->
                               result (list fimage * list Z))
  (V : A -> list visit) :
  (forall acc a,
      step acc a
      = (imgs <- mapM (visit_read decodes) (V a) ;;
         Ok (extend interp acc imgs (V a)))) ->
  forall l acc,
    foldM step l acc
    = (imgs <- mapM (visit_read decodes) (flat_map V l) ;;
       Ok (extend interp acc imgs (flat_map V l))).
Proof.
  intros Hstep. induction l as [|a l IH]; intros acc; simpl.
  - unfold extend. simpl. rewrite !app_nil_r. destruct acc; reflexivity.
  - rewrite Hstep, mapM_app.
    destruct (mapM (visit_read decodes) (V a)) as [imgs|e]; simpl; [|reflexivity].
    rewrite IH.
    destruct (mapM (visit_read decodes) (flat_map V l)) as [imgs'|e]; simpl;
      [|reflexivity].
    unfold extend. simpl. rewrite !map_app, !app_assoc. reflexivity.
Qed.

Lemma load_label_visits zip_data acc nl :
  load_label decodes interp zip_data acc nl
  = (imgs <- mapM (visit_read decodes)
               (map (fun f => (zip_data, fst nl, f))
                    (patch_files (snd nl) zip_data)) ;;
     Ok (extend interp acc imgs
           (map (fun f => (zip_data, fst nl, f))
                (patch_files (snd nl) zip_data)))).
Proof.
  destruct nl as [numeric_label label]. unfold load_label. cbv zeta.
  rewrite mapM_map. simpl fst. simpl snd.
  change (mapM (fun f => c <- zip_open zip_data f ;; imread decodes f c))
    with (mapM (read_member decodes zip_data)).
  change (filter (is_patch_file label) (namelist zip_data))
    with (patch_files label zip_data).
  change (mapM (fun a => visit_read decodes (zip_data, numeric_label, a)))
    with (mapM (read_member decodes zip_data)).
  destruct (mapM (read_member decodes zip_data) (patch_files label zip_data))
    as [imgs|e] eqn:E; simpl; [|reflexivity].
  unfold extend. f_equal. f_equal. f_equal.
  rewrite length_map, (mapM_length _ _ _ E), map_map. simpl.
  clear E. induction (patch_files label zip_data); simpl; congruence.
Qed.

Lemma load_zip_visits labels acc zfn :
  load_zip decodes interp labels acc zfn
  = (imgs <- mapM (visit_read decodes) (visits_of_zip labels (snd zfn)) ;;
     Ok (extend interp acc imgs (visits_of_zip labels (snd zfn)))).
Proof.
  unfold load_zip, visits_of_zip.
  apply (foldM_visits (load_label decodes interp (snd zfn))
           (fun nl => map (fun f => (snd zfn, fst nl, f))
                          (patch_files (snd nl) (snd zfn)))).
  intros acc' nl. apply load_label_visits.
Qed.

(** [create_tf_record] succeeds exactly when every visited member
    decodes and there is at least one; what it writes is listed in the
    order of the visits. *)
Lemma create_tf_record_visits root filename labels out :
  create_tf_record decodes interp root filename labels = Ok out <->
  exists imgs,
    mapM (visit_read decodes)
      (visits labels (filter (fun f => is_annotation_zip (fst f)) root))
      = Ok imgs /\
    imgs <> [] /\
    out = (filename,
           map (written_image interp) imgs,
           map (fun v => astype_int64 (visit_label v))
             (visits labels
                (filter (fun f => is_annotation_zip (fst f)) root))).
Proof.
  unfold create_tf_record. cbv zeta.
  set (zipfiles := filter _ root).
  rewrite (foldM_visits (load_zip decodes interp labels)
             (fun zfn => visits_of_zip labels (snd zfn)))
    by (intros; apply load_zip_visits).
  fold (visits labels zipfiles).
  destruct (mapM (visit_read decodes) (visits labels zipfiles)) as [imgs|e] eqn:E.
  2:{ split; [discriminate|]. intros (imgs & Himgs & _). discriminate. }
  pose proof (mapM_length _ _ _ E) as Hlen.
  unfold extend. cbn [bind fst snd app].
  assert (Himages :
            map (map (map (map astype_uint8))) (newaxis
              (map (fun img => resize interp img (64%nat, 64%nat) true)
                   imgs))
            = map (written_image interp) imgs).
  { unfold newaxis, written_image.
    rewrite !map_map. apply map_ext. intros a.
    rewrite !map_map. apply map_ext. intros row.
    rewrite !map_map. reflexivity. }
  assert (Hstack : forall {X Y} (g : X -> Y) (l : list X),
             np_stack (map g l)
             = match l with
               | [] => Raise ValueError_empty_stack
               | _ => Ok (map g l)
               end)
    by (intros X Y g [|x l]; reflexivity).
  rewrite !Hstack.
  destruct imgs as [|img imgs].
  { split; [discriminate|]. intros (imgs & Himgs & Hne & _).
    injection Himgs as <-. contradiction. }
  destruct (visits labels zipfiles) as [|v vs]; [discriminate|].
  cbn [bind]. rewrite Himages, map_map.
  split.
  - intros Hout. injection Hout as <-. exists (img :: imgs).
    repeat split. discriminate.
  - intros (imgs' & Himgs & _ & ->). injection Himgs as <-. reflexivity.
Qed.

(** [create_tf_record] as one pass over the visits. *)
Lemma create_tf_record_eq root filename labels :
  create_tf_record decodes interp root filename labels
  = (imgs <- mapM (visit_read decodes)
               (visits labels
                  (filter (fun f => is_annotation_zip (fst f)) root)) ;;
     match imgs with
     | [] => Raise ValueError_empty_stack
     | _ =>
         Ok (filename, map (written_image interp) imgs,
             map (fun v => astype_int64 (visit_label v))
               (visits labels
                  (filter (fun f => is_annotation_zip (fst f)) root)))
     end).
Proof.
  destruct (create_tf_record decodes interp root filename labels)
    as [out|e] eqn:Hrun.
  - apply create_tf_record_visits in Hrun as (imgs & -> & Hne & ->).
    destruct imgs; [contradiction|reflexivity].
  - revert Hrun. unfold create_tf_record. cbv zeta.
    set (zipfiles := filter _ root).
    rewrite (foldM_visits (load_zip decodes interp labels)
               (fun zfn => visits_of_zip labels (snd zfn)))
      by (intros; apply load_zip_visits).
    fold (visits labels zipfiles).
    destruct (mapM (visit_read decodes) (visits labels zipfiles)) as [imgs|e'] eqn:E.
    2:{ simpl. congruence. }
    pose proof (mapM_length _ _ _ E) as Hlen.
    unfold extend. cbn [bind fst snd app].
    destruct imgs as [|img imgs].
    + simpl. congruence.
    + destruct (visits labels zipfiles) as [|v vs]; [discriminate|].
      cbn [map np_stack bind]. discriminate.
Qed.
End Loops.

Lemma enumerate_from_In {A} (l : list A) : forall n k a,
  In (k, a) (enumerate_from n l) <->
  (n <= k)%nat /\ nth_error l (k - n) = Some a.
Proof.
  induction l as [|x l IH]; intros n k a; simpl.
  - split; [intros []|]. intros [_ H]. destruct (k - n)%nat; discriminate.
  - rewrite IH. split.
    + intros [Heq|[Hle Hnth]].
      * injection Heq as <- <-. rewrite Nat.sub_diag. auto.
      * split; [lia|]. replace (k - n)%nat with (S (k - S n)) by lia.
        exact Hnth.
    + intros [Hle Hnth]. destruct (Nat.eq_dec n k) as [->|Hne].
      * rewrite Nat.sub_diag in Hnth. injection Hnth as <-. auto.
      * right. split; [lia|].
        replace (k - n)%nat with (S (k - S n)) in Hnth by lia. exact Hnth.
Qed.

Lemma enumerate_In {A} (l : list A) k a :
  In (k, a) (enumerate l) <-> nth_error l k = Some a.
Proof.
  unfold enumerate. rewrite enumerate_from_In, Nat.sub_0_r.
  split; [tauto|]. intros H. split; [lia|exact H].
Qed.

Lemma visits_In labels zipfiles zip_data k f :
  In (zip_data, k, f) (visits labels zipfiles) <->
  (exists zfn, In (zfn, zip_data) zipfiles) /\
  exists label, nth_error labels k = Some label /\
                In f (patch_files label zip_data).
Proof.
  unfold visits, visits_of_zip. rewrite in_flat_map. split.
  - intros ([zfn z] & Hz & Hin). simpl in Hin.
    apply in_flat_map in Hin as ([k' label] & Hnl & Hin). simpl in Hin.
    apply in_map_iff in Hin as (f' & Heq & Hf). injection Heq as -> -> ->.
    apply enumerate_In in Hnl. eauto.
  - intros ((zfn & Hz) & label & Hk & Hf). exists (zfn, zip_data).
    split; [exact Hz|]. simpl. apply in_flat_map. exists (k, label).
    split; [apply enumerate_In; exact Hk|]. simpl.
    apply in_map. exact Hf.
Qed.


Lemma astype_int64_small z :
  - 2 ^ 63 <= z < 2 ^ 63 -> astype_int64 z = z.
Proof.
  intros Hz. unfold astype_int64. rewrite Z.mod_small; lia.
Qed.



Lemma prefix_LABELS_capitalize label :
  In label LABELS -> capitalize label = label.
Proof.
  intros Hin. simpl in Hin.
  repeat destruct Hin as [<-|Hin]; try reflexivity. destruct Hin.
Qed.





Lemma map_flat_map {A B C} (f : B -> C) (g : A -> list B) l :
  map f (flat_map g l) = flat_map (fun a => map f (g a)) l.
Proof.
  induction l as [|a l IH]; simpl; [reflexivity|].
  rewrite map_app, IH. reflexivity.
Qed.

Lemma map_constant {A B} (b : B) (l : list A) :
  map (fun _ => b) l = repeat b (length l).
Proof. induction l; simpl; congruence. Qed.

(** C10.  The two arrays that [create_tf_record] produces have the same
    length, and entry [n] of each belongs to the [n]-th visit, the visits
    running archive by archive and, within an archive, label by label in
    the order of the label indices: the labels are, for each archive in
    turn and each label index in turn, that index repeated once per patch
    file.  The arrays are produced whenever the archives hold at least one
    patch file and every patch file decodes. *)
Theorem images_and_labels_aligned :
  forall (decodes : dtype -> bool)
         (interp : bool -> image -> nat * nat -> nat -> nat -> Q)
         (root : list (string * archive)) (filename : string)
         (labels : list string),
    let zipfiles := filter (fun f => is_annotation_zip (fst f)) root in
    (forall out_fn images labels_arr,
        create_tf_record decodes interp root filename labels
          = Ok (out_fn, images, labels_arr) ->
        (exists zfn zip_data label f,
            In (zfn, zip_data) zipfiles /\ In label labels /\
            In f (patch_files label zip_data)) /\
        length images = length labels_arr /\
        Forall2 (fun v im =>
                   exists img, visit_read decodes v = Ok img /\
                               im = written_image interp img)
                (visits labels zipfiles) images /\
        labels_arr
        = map (fun v => astype_int64 (visit_label v))
              (visits labels zipfiles) /\
        labels_arr
        = flat_map
            (fun zfn =>
               flat_map
                 (fun nl =>
                    repeat (astype_int64 (Z.of_nat (fst nl)))
                           (length (patch_files (snd nl) (snd zfn))))
                 (enumerate labels))
            zipfiles) /\
    ((forall zfn zip_data label f,
         In (zfn, zip_data) zipfiles -> In label labels ->
         In f (patch_files label zip_data) ->
         exists img, read_member decodes zip_data f = Ok img) ->
     (exists zfn zip_data label f,
         In (zfn, zip_data) zipfiles /\ In label labels /\
         In f (patch_files label zip_data)) ->
     exists images labels_arr,
       create_tf_record decodes interp root filename labels
         = Ok (filename, images, labels_arr)).
Proof.
  intros decodes interp root filename labels zipfiles. split.
  - intros out_fn images labels_arr Hrun.
    apply create_tf_record_visits in Hrun as (imgs & Hread & Hne & Hout).
    injection Hout as -> -> ->. fold zipfiles in Hread. fold zipfiles.
    split.
    { pose proof (mapM_length _ _ _ Hread) as Hlen.
      destruct (visits labels zipfiles) as [|[[z k] f] vs] eqn:E.
      - destruct imgs; [contradiction|discriminate].
      - assert (Hin : In (z, k, f) (visits labels zipfiles))
          by (rewrite E; left; reflexivity).
        apply visits_In in Hin as ((zfn & Hz) & label & Hk & Hf).
        exists zfn, z, label, f. repeat split; auto.
        eapply nth_error_In; eauto. }
    split.
    { rewrite !length_map. eapply mapM_length; eauto. }
    split.
    { apply mapM_Forall2 in Hread. clear -Hread.
      induction Hread; simpl; constructor; eauto. }
    split; [reflexivity|].
    unfold visits, visits_of_zip. clear.
    rewrite map_flat_map. apply flat_map_ext. intros zfn.
    rewrite map_flat_map. apply flat_map_ext. intros nl.
    rewrite map_map. simpl. apply map_constant.
  - intros Hreadable Hsome.
    destruct (mapM_total (visit_read decodes) (visits labels zipfiles))
      as [imgs Hread].
    { intros [[z k] f] Hin.
      apply visits_In in Hin as ((zfn & Hz) & label & Hk & Hf).
      apply (Hreadable zfn z label f); auto.
      eapply nth_error_In; eauto. }
    assert (Hne : imgs <> []).
    { destruct Hsome as (zfn & z & label & f & Hz & Hl & Hf).
      apply In_nth_error in Hl as (k & Hk).
      assert (Hin : In (z, k, f) (visits labels zipfiles))
        by (apply visits_In; eauto).
      intros Hnil. rewrite Hnil in Hread. apply mapM_length in Hread.
      destruct (visits labels zipfiles); [destruct Hin|discriminate]. }
    exists (map (written_image interp) imgs),
           (map (fun v => astype_int64 (visit_label v))
                (visits labels zipfiles)).
    apply create_tf_record_visits. exists imgs. auto.
Qed.

Lemma images_and_labels_aligned_witness :
  exists images labels_arr,
    create_tf_record decodes_8_16 copy_interp root_T "CNN_train.tfrecord"
      LABELS
      = Ok ("CNN_train.tfrecord", images, labels_arr) /\
    length images = length labels_arr.
Proof.
  destruct (images_and_labels_aligned decodes_8_16 copy_interp root_T
              "CNN_train.tfrecord" LABELS) as (Haligned & Hproduced).
  destruct Hproduced as (images & labels_arr & Hrun).
  - intros zfn zip_data label f Hz Hl Hf.
    vm_compute in Hz. destruct Hz as [Hz|[]]. injection Hz as <- <-.
    simpl in Hl.
    repeat destruct Hl as [<-|Hl]; try destruct Hl;
      vm_compute in Hf; repeat destruct Hf as [<-|Hf]; try destruct Hf;
      eexists; vm_compute; reflexivity.
  - exists "annotation_T.zip", session_T, "Metaphase",
      "Metaphase/Metaphase_T_0.tif".
    split; [vm_compute; auto|]. split; [simpl; auto|].
    vm_compute. auto.
  - exists images, labels_arr. split; [exact Hrun|].
    apply (Haligned _ _ _ Hrun).
Defined.

(* ===================================================================== *)
(** * Export, then read back *)
(* ===================================================================== *)

Lemma get_image_patch_ok_shape layers coords shape patch :
  get_image_patch layers coords shape = Ok patch ->
  Np.shape patch = [shape; shape].
Proof.
  unfold get_image_patch.
  destruct (map int_of_float coords) as [|frame [|y_coo [|x_coo [|? ?]]]];
    try discriminate.
  cbv zeta. destruct (index layers 0) as [layer0|e]; simpl; [|discriminate].
  destruct (index (data layer0) frame) as [img|e]; simpl; [|discriminate].
  destruct (list_eq_dec _ _ _) as [Heq|_]; [|discriminate].
  intros Hok. injection Hok as <-. exact Heq.
Qed.

Lemma zip_open_unique (z : archive) i f c :
  nth_error z i = Some (f, c) ->
  (forall j f' c', nth_error z j = Some (f', c') -> f' = f -> j = i) ->
  zip_open z f = Ok c.
Proof.
  intros Hi Huniq. unfold zip_open.
  destruct (find _ (rev z)) as [[f' c']|] eqn:E.
  - apply find_some in E as [Hin Heq]. simpl in Heq.
    apply String.eqb_eq in Heq. subst f'.
    apply in_rev in Hin. apply In_nth_error in Hin as [j Hj].
    pose proof (Huniq _ _ _ Hj eq_refl). subst j.
    rewrite Hi in Hj. injection Hj as ->. reflexivity.
  - exfalso. eapply find_none in E.
    2:{ apply in_rev. rewrite rev_involutive. eapply nth_error_In; eauto. }
    simpl in E. rewrite String.eqb_refl in E. discriminate.
Qed.

Lemma endswith_app_r a b suf :
  endswith b suf = true -> endswith (a ++ b) suf = true.
Proof.
  intros Hb. induction a as [|c a IH]; [exact Hb|].
  cbn -[String.eqb]. rewrite IH. apply orb_true_r.
Qed.

Lemma is_annotation_zip_session SESSION_TIME :
  is_annotation_zip ("annotation_" ++ SESSION_TIME ++ ".zip") = true.
Proof.
  unfold is_annotation_zip. apply andb_true_iff. split.
  - apply (endswith_app_r "annotation_"), endswith_append.
  - apply prefix_append.
Qed.

Lemma is_patch_file_image_patch_fn label SESSION_TIME idx :
  In label LABELS ->
  is_patch_file label (image_patch_fn label SESSION_TIME idx) = true.
Proof.
  intros Hin. unfold is_patch_file, image_patch_fn.
  rewrite (prefix_LABELS_capitalize _ Hin).
  apply andb_true_iff. split.
  - apply endswith_app_r, (endswith_app_r "/"), endswith_app_r,
      (endswith_app_r "_"), endswith_app_r, (endswith_app_r "_"),
      endswith_append.
  - apply prefix_append.
Qed.


Lemma image_patch_fn_same_label label SESSION_TIME i j :
  image_patch_fn label SESSION_TIME i = image_patch_fn label SESSION_TIME j ->
  i = j.
Proof.
  unfold image_patch_fn. intros H.
  apply (append_inj_l label) in H. apply (append_inj_l "/") in H.
  apply (append_inj_l label) in H. apply (append_inj_l "_") in H.
  apply (append_inj_l SESSION_TIME) in H. apply (append_inj_l "_") in H.
  apply append_inj_r in H. apply str_nat_inj. exact H.
Qed.

Lemma image_patch_fn_inj label label' SESSION_TIME i j :
  In label LABELS -> In label' LABELS ->
  image_patch_fn label SESSION_TIME i = image_patch_fn label' SESSION_TIME j ->
  i = j.
Proof.
  intros Hl Hl' Heq. simpl in Hl, Hl'.
  repeat destruct Hl as [<-|Hl]; try destruct Hl;
    repeat destruct Hl' as [<-|Hl']; try destruct Hl';
    try (apply image_patch_fn_same_label in Heq; exact Heq);
    exfalso; unfold image_patch_fn in Heq; simpl in Heq; discriminate Heq.
Qed.

Lemma image_patch_fn_not_json label SESSION_TIME i :
  In label LABELS ->
  image_patch_fn label SESSION_TIME i
  <> ("annotation_" ++ SESSION_TIME ++ ".json")%string.
Proof.
  intros Hl Heq. simpl in Hl.
  repeat destruct Hl as [<-|Hl]; try destruct Hl;
    unfold image_patch_fn in Heq; simpl in Heq; discriminate Heq.
Qed.




Section ReadBack.
Variables (decodes : dtype -> bool)
          (layers : list Layer) (points_layer : Points)
          (SESSION_TIME : string) (shape : Z) (use_visible_layers : bool)
          (zip : ZipFile).

Hypothesis exported :
  cnn_annotation_widget layers points_layer SESSION_TIME shape
    use_visible_layers = (zip, Ok tt).

Hypothesis known_labels :
  Forall (fun label => In label LABELS) (State points_layer).






End ReadBack.






(** A session exported from a movie held as 64-bit integers: the export
    succeeds, and a reader that decodes 8- and 16-bit TIFFs only stops
    [create_tf_record] at the first patch it visits, whatever the
    interpolation. *)
Lemma read_back_of_64_bit_patch_raises :
  exists zip : ZipFile,
    cnn_annotation_widget [GFP4_int64] two_points "T" 2 true = (zip, Ok tt) /\
    nth_error (members zip) 0
    = Some ("Metaphase/Metaphase_T_0.tif", Tiff int64 [[11; 12]; [21; 22]]) /\
    forall interp filename,
      create_tf_record decodes_8_16 interp [(zname zip, members zip)]
        filename LABELS
      = Raise (ReadError "Metaphase/Metaphase_T_0.tif").
Proof.
  eexists. split; [vm_compute; reflexivity|].
  split; [reflexivity|].
  intros interp filename. rewrite create_tf_record_eq. reflexivity.
Qed.

(* ===================================================================== *)
(** * Crops that leave the frame *)
(* ===================================================================== *)

Lemma slice_full_window {A} (l : list A) c pad :
  0 < pad -> 0 <= c ->
  Z.of_nat (length (slice l (c - pad) (c + pad))) = 2 * pad ->
  0 <= c - pad /\ c + pad <= Z.of_nat (length l).
Proof.
  intros Hpad Hc. rewrite slice_length. unfold slice_bound.
  destruct (c - pad <? 0) eqn:E1; destruct (c + pad <? 0) eqn:E2; lia.
Qed.

(** For a point that is not above or left of the frame, a crop window that
    leaves the frame is always caught by the shape check. *)
Lemma get_image_patch_outside_raises
  (L : Layer) (rest : list Layer) (t y x : Q) (shape : Z) (img : image)
  (H W : nat) :
  index (data L) (int_of_float t) = Ok img ->
  wf_image H W img ->
  0 <= int_of_float y -> 0 <= int_of_float x -> 0 < shape ->
  int_of_float y - shape / 2 < 0 \/ Z.of_nat H < int_of_float y + shape / 2 \/
  int_of_float x - shape / 2 < 0 \/ Z.of_nat W < int_of_float x + shape / 2 ->
  exists got,
    get_image_patch (L :: rest) [t; y; x] shape
    = Raise (ValueError_patch_shape got).
Proof.
  intros Hidx [HH HW] Hy Hx Hpos Hout.
  rewrite (get_image_patch_unfold _ _ _ _ _ _ _ Hidx). cbv zeta.
  set (pad := shape / 2) in *.
  set (rows := slice img _ _).
  set (patch := map _ rows).
  destruct (list_eq_dec _ _ _) as [Heq|_]; [exfalso|eauto].
  apply shape_two_dims in Heq as (Hlen & Hne & Hcols).
  assert (Hrows : Z.of_nat (length rows) = shape)
    by (subst patch; rewrite length_map in Hlen; exact Hlen).
  pose proof (Z.div_mod shape 2 ltac:(lia)) as Hdm. fold pad in Hdm.
  pose proof (Z.mod_pos_bound shape 2 ltac:(lia)) as Hmod.
  assert (Hpad0 : 0 <= pad) by (apply Z.div_pos; lia).
  pose proof (slice_window_length img (int_of_float y) pad Hpad0) as Hle.
  fold rows in Hle.
  assert (Hshape : shape = 2 * pad) by lia.
  assert (Hpad : 0 < pad) by lia.
  destruct (slice_full_window img (int_of_float y) pad Hpad Hy) as [Hy0 Hy1].
  { fold rows. lia. }
  destruct rows as [|row rows'] eqn:Erows; [simpl in Hrows; lia|].
  assert (Hrow : In row img).
  { apply (slice_In img (int_of_float y - pad) (int_of_float y + pad)).
    fold pad. unfold rows in Erows. rewrite Erows. left. reflexivity. }
  rewrite Forall_forall in HW. specialize (HW row Hrow).
  subst patch. simpl in Hcols. apply Forall_inv in Hcols.
  destruct (slice_full_window row (int_of_float x) pad Hpad Hx) as [Hx0 Hx1].
  { lia. }
  lia.
Qed.

Section Abort.
Variables (image_layers : list Layer) (states : list string)
          (SESSION_TIME : string) (shape : Z).

(** When the loop raises, what is in the archive is one patch for each
    point before the first one that fails, and nothing else. *)
Lemma write_patches_stops : forall todo myzip out e,
  write_patches image_layers states SESSION_TIME shape todo myzip
    = (out, Raise e) ->
  exists written,
    out = myzip ++ written /\
    (length written < length todo)%nat /\
    Forall (fun m => exists dt img, snd m = Tiff dt img) written /\
    forall i idx coords,
      (i < length written)%nat -> nth_error todo i = Some (idx, coords) ->
      exists patch,
        get_image_patch image_layers coords shape = Ok patch.
Proof.
  induction todo as [|[idx coords] todo IH]; intros myzip out e Hrun;
    simpl in Hrun; [discriminate|].
  destruct (index states (Z.of_nat idx)) as [label|e1] eqn:Elabel;
    simpl in Hrun.
  2:{ injection Hrun as <- _. exists []. rewrite app_nil_r. simpl.
      repeat split; [lia|constructor|]. intros; lia. }
  destruct (get_image_patch image_layers coords shape) as [patch|e2]
    eqn:Epatch; simpl in Hrun.
  2:{ injection Hrun as <- _. exists []. rewrite app_nil_r. simpl.
      repeat split; [lia|constructor|]. intros; lia. }
  apply IH in Hrun as (written & -> & Hlen & Hall & Hbefore).
  exists ((image_patch_fn label SESSION_TIME idx,
           Tiff (patch_dtype image_layers) patch) :: written).
  rewrite <- app_assoc. simpl. repeat split; [lia| |].
  - constructor; [eexists; eexists; reflexivity|assumption].
  - intros [|i] idx' coords' Hi Hnth; simpl in Hnth.
    + injection Hnth as <- <-. eauto.
    + apply (Hbefore i idx' coords'); [lia|exact Hnth].
Qed.
End Abort.

(** If the crop of some point raises, the export raises too; the archive
    then holds patches only, fewer than the position of that point, and no
    JSON member. *)
Lemma export_aborts_without_json
  (layers : list Layer) (points_layer : Points) (SESSION_TIME : string)
  (shape : Z) (use_visible_layers : bool) (idx : nat) (coords : list Q)
  (e : exn) :
  nth_error (pdata points_layer) idx = Some coords ->
  get_image_patch (filter isinstance_Image layers) coords shape = Raise e ->
  exists zip e',
    cnn_annotation_widget layers points_layer SESSION_TIME shape
      use_visible_layers = (zip, Raise e') /\
    (length (members zip) <= idx)%nat /\
    Forall (fun m => exists dt img, snd m = Tiff dt img) (members zip) /\
    forall f doc, ~ In (f, Text doc) (members zip).
Proof.
  intros Hidx Hraise. unfold cnn_annotation_widget. cbv zeta.
  assert (Htodo : nth_error (enumerate (pdata points_layer)) idx
                  = Some (idx, coords))
    by (unfold enumerate; rewrite enumerate_from_nth, Hidx; reflexivity).
  destruct (write_patches _ _ _ _ _ _) as [myzip [[]|e']] eqn:Hloop.
  - exfalso.
    apply write_patches_ok in Hloop as (written & _ & _ & Hnth).
    destruct (Hnth _ _ _ Htodo) as (label & patch & _ & Hok & _).
    congruence.
  - apply write_patches_stops in Hloop as (written & -> & Hlen & Hall & Hbefore).
    simpl app. exists (mkZip (SESSION_NAME SESSION_TIME ++ ".zip") written), e'.
    split; [reflexivity|]. simpl members.
    assert (Hle : (length written <= idx)%nat).
    { destruct (Nat.le_gt_cases (length written) idx) as [Hle|Hgt];
        [exact Hle|].
      destruct (Hbefore _ _ _ Hgt Htodo) as (patch & Hok). congruence. }
    repeat split; [exact Hle|exact Hall|].
    intros f doc Hin. rewrite Forall_forall in Hall.
    destruct (Hall _ Hin) as (dt & img & Himg). discriminate Himg.
Qed.

(** C1, at the failing input.  The 2 x 2 crop window of the point
    [(0, -2, 2)] covers the rows -3 and -2, outside the 4 x 4 frame.  The
    slice [image[-3:-1]] counts from the end of the frame, so
    [get_image_patch] raises nothing and returns rows 1 and 2, the very
    patch of the point [(0, 2, 2)]; the export writes this patch and then
    the JSON member.  With the default size 64 the same happens for a point
    33 rows above a frame of 66 rows: the patch returned is rows 1 to 64. *)
Theorem negative_window_wraps_around :
  get_image_patch [GFP4] [0; -2 # 1; 2]%Q 2 = Ok [[11; 12]; [21; 22]] /\
  get_image_patch [GFP4] [0; 2; 2]%Q 2 = Ok [[11; 12]; [21; 22]] /\
  (exists export_data,
      cnn_annotation_widget [GFP4] point_above_frame "T" 2 true
      = (mkZip "annotation_T.zip"
           [("Metaphase/Metaphase_T_0.tif", Tiff uint8 [[11; 12]; [21; 22]]);
            ("annotation_T.json", Text export_data)],
         Ok tt)) /\
  get_image_patch [GFP66] [0; -33 # 1; 32]%Q 64
  = Ok (slice (gradient 66 64) 1 65).
Proof.
  split; [vm_compute; reflexivity|].
  split; [vm_compute; reflexivity|].
  split; [eexists; vm_compute; reflexivity|].
  vm_compute. reflexivity.
Qed.

(* ===================================================================== *)
(** * More on [get_image_patch] *)
(* ===================================================================== *)

Lemma slice_wrap {A} (l : list A) a b :
  a <= b -> b < 0 -> 0 <= a + Z.of_nat (length l) ->
  slice l a b = slice l (a + Z.of_nat (length l)) (b + Z.of_nat (length l)).
Proof.
  intros Hab Hb Ha. unfold slice, slice_bound. cbv zeta.
  replace (a <? 0) with true by lia.
  replace (b <? 0) with true by lia.
  replace (a + Z.of_nat (length l) <? 0) with false by lia.
  replace (b + Z.of_nat (length l) <? 0) with false by lia.
  rewrite !Z.max_l, !Z.min_l by lia. reflexivity.
Qed.

(** A window inside the frame is cropped, whatever the fractional parts of
    the coordinates. *)
Lemma get_image_patch_inside_ok
  (L : Layer) (rest : list Layer) (t y x : Q) (shape : Z) (img : image)
  (H W : nat) :
  index (data L) (int_of_float t) = Ok img ->
  wf_image H W img ->
  0 < shape -> Z.even shape = true ->
  0 <= int_of_float y - shape / 2 -> int_of_float y + shape / 2 <= Z.of_nat H ->
  0 <= int_of_float x - shape / 2 -> int_of_float x + shape / 2 <= Z.of_nat W ->
  get_image_patch (L :: rest) [t; y; x] shape
  = Ok (map (fun row => slice row (int_of_float x - shape / 2)
                          (int_of_float x + shape / 2))
            (slice img (int_of_float y - shape / 2)
               (int_of_float y + shape / 2))).
Proof.
  intros Hidx [HH HW] Hpos Hev Hy0 Hy1 Hx0 Hx1.
  rewrite (get_image_patch_unfold _ _ _ _ _ _ _ Hidx). cbv zeta.
  pose proof (even_half _ Hev) as Hhalf.
  set (pad := shape / 2) in *.
  set (rows := slice img _ _).
  set (patch := map _ rows).
  destruct (list_eq_dec _ _ _) as [_|Hne]; [reflexivity|exfalso].
  apply Hne.
  rewrite (shape_rectangular patch (Z.to_nat shape) (Z.to_nat shape)).
  - rewrite Z2Nat.id by lia. reflexivity.
  - lia.
  - subst patch. rewrite length_map. apply Nat2Z.inj. subst rows.
    rewrite slice_length. unfold slice_bound. rewrite HH.
    replace (int_of_float y - pad <? 0) with false by lia.
    replace (int_of_float y + pad <? 0) with false by lia. lia.
  - apply Forall_forall. intros r Hin. subst patch.
    apply in_map_iff in Hin as (row & <- & Hin).
    apply Nat2Z.inj. rewrite slice_length. unfold slice_bound.
    rewrite Forall_forall in HW.
    rewrite (HW row) by (subst rows; eapply slice_In; eauto).
    replace (int_of_float x - pad <? 0) with false by lia.
    replace (int_of_float x + pad <? 0) with false by lia. lia.
Qed.

(** X1.  For a point that is not above or left of the frame (its truncated
    [y] and [x] are non-negative), [get_image_patch] returns a patch exactly
    when the patch size is positive and even and the crop window lies
    inside the frame; in every other case it raises. *)
Theorem get_image_patch_returns_iff_inside :
  forall (L : Layer) (rest : list Layer) (t y x : Q) (shape : Z)
         (img : image) (H W : nat),
    index (data L) (int_of_float t) = Ok img ->
    wf_image H W img ->
    0 <= int_of_float y -> 0 <= int_of_float x ->
    ((exists patch, get_image_patch (L :: rest) [t; y; x] shape = Ok patch)
     <->
     0 < shape /\ Z.even shape = true /\
     0 <= int_of_float y - shape / 2 /\
     int_of_float y + shape / 2 <= Z.of_nat H /\
     0 <= int_of_float x - shape / 2 /\
     int_of_float x + shape / 2 <= Z.of_nat W).
Proof.
  intros L rest t y x shape img H W Hidx Hwf Hy Hx. split.
  - intros (patch & Hok).
    assert (Hpos : 0 < shape).
    { apply get_image_patch_ok_shape in Hok.
      apply shape_two_dims in Hok as (Hlen & Hne & _).
      destruct patch; [contradiction|]. simpl length in Hlen. lia. }
    assert (Hev : Z.even shape = true).
    { destruct (Z.even shape) eqn:E; [reflexivity|exfalso].
      assert (Hodd : Z.odd shape = true)
        by (rewrite <- Z.negb_even, E; reflexivity).
      destruct (get_image_patch_odd_shape_check L rest t y x shape img
                  Hodd Hidx) as (got & Hraise & _).
      congruence. }
    repeat split; try assumption.
    all: apply Z.nlt_ge || apply Z.le_ngt; intros Hout;
      destruct (get_image_patch_outside_raises L rest t y x shape img H W
                  Hidx Hwf Hy Hx Hpos) as (got & Hraise);
      [tauto|congruence].
  - intros (Hpos & Hev & Hy0 & Hy1 & Hx0 & Hx1). eexists.
    eapply get_image_patch_inside_ok; eauto.
Qed.

Lemma get_image_patch_returns_iff_inside_witness :
  (exists patch, get_image_patch [GFP4] [0; 5 # 2; 2]%Q 2 = Ok patch) /\
  ~ (exists patch, get_image_patch [GFP4] [0; 1 # 2; 2]%Q 2 = Ok patch).
Proof.
  split.
  - apply (get_image_patch_returns_iff_inside GFP4 [] 0%Q (5 # 2)%Q 2%Q 2
             frame4 4 4).
    + reflexivity.
    + repeat constructor.
    + vm_compute. discriminate.
    + vm_compute. discriminate.
    + vm_compute. repeat split; discriminate.
  - intros Hret.
    apply (get_image_patch_returns_iff_inside GFP4 [] 0%Q (1 # 2)%Q 2%Q 2
             frame4 4 4) in Hret.
    + vm_compute in Hret. destruct Hret as (_ & _ & Hy0 & _).
      apply Hy0. reflexivity.
    + reflexivity.
    + repeat constructor.
    + vm_compute. discriminate.
    + vm_compute. discriminate.
Defined.

(** X2.  Whenever [get_image_patch] returns, the patch size is positive
    and even, the patch has [shape] rows of [shape] pixels each, and every
    pixel of it is a pixel of the frame the point selects in the first
    layer: nothing is padded or filled in. *)
Theorem get_image_patch_returns_square_of_frame_pixels :
  forall (layers : list Layer) (coords : list Q) (shape : Z) (patch : image),
    get_image_patch layers coords shape = Ok patch ->
    0 < shape /\ Z.even shape = true /\
    Z.of_nat (length patch) = shape /\
    Forall (fun row => Z.of_nat (length row) = shape) patch /\
    exists L rest t y x img,
      layers = L :: rest /\ coords = [t; y; x] /\
      index (data L) (int_of_float t) = Ok img /\
      forall row v, In row patch -> In v row ->
                    exists frow, In frow img /\ In v frow.
Proof.
  intros layers coords shape patch Hok.
  pose proof (get_image_patch_ok_shape _ _ _ _ Hok) as Hshape.
  apply shape_two_dims in Hshape as (Hlen & Hne & Hcols).
  assert (Hpos : 0 < shape).
  { destruct patch; [contradiction|]. simpl length in Hlen. lia. }
  destruct (get_image_patch_ok_inv _ _ _ _ Hok)
    as (L & rest & t & y & x & img & -> & -> & Hidx).
  assert (Hev : Z.even shape = true).
  { destruct (Z.even shape) eqn:E; [reflexivity|exfalso].
    assert (Hodd : Z.odd shape = true)
      by (rewrite <- Z.negb_even, E; reflexivity).
    destruct (get_image_patch_odd_shape_check L rest t y x shape img
                Hodd Hidx) as (got & Hraise & _).
    congruence. }
  repeat split; try assumption.
  exists L, rest, t, y, x, img. repeat split; try assumption.
  intros row v Hrow Hv.
  rewrite (get_image_patch_unfold _ _ _ _ _ _ _ Hidx) in Hok.
  cbv zeta in Hok.
  destruct (list_eq_dec _ _ _) as [_|_]; [|discriminate].
  injection Hok as <-.
  apply in_map_iff in Hrow as (frow & <- & Hfrow).
  exists frow. split; eapply slice_In; eauto.
Qed.

Lemma get_image_patch_returns_square_of_frame_pixels_witness :
  exists patch,
    get_image_patch [GFP4] [0; 2; 2]%Q 2 = Ok patch /\
    Z.of_nat (length patch) = 2.
Proof.
  exists [[11; 12]; [21; 22]]. split; [reflexivity|].
  destruct (get_image_patch_returns_square_of_frame_pixels
              [GFP4] [0; 2; 2]%Q 2 [[11; 12]; [21; 22]] eq_refl)
    as (_ & _ & Hlen & _).
  exact Hlen.
Defined.

(** X3.  Negative slice bounds count from the end of the frame.  When the
    window of rows ends above the first row ([y + shape // 2 < 0]) and
    starts no more than the height [H] of the frame above it, the call
    gives the result of the point [H] rows further down; and likewise,
    with the width [W], for a window of columns that ends left of the first
    column.  A window that ends exactly at the first row or column
    ([y + shape // 2 = 0] or [x + shape // 2 = 0]) is not shifted: its
    slice is empty and the call raises the [ValueError] of the shape
    check. *)
Theorem get_image_patch_negative_window_is_shifted :
  forall (L : Layer) (rest : list Layer) (t y x shape : Z) (img : image)
         (H W : nat),
    index (data L) t = Ok img ->
    wf_image H W img ->
    0 <= shape ->
    (y + shape / 2 < 0 -> 0 <= y - shape / 2 + Z.of_nat H ->
     get_image_patch (L :: rest) [inject_Z t; inject_Z y; inject_Z x] shape
     = get_image_patch (L :: rest)
         [inject_Z t; inject_Z (y + Z.of_nat H); inject_Z x] shape) /\
    (x + shape / 2 < 0 -> 0 <= x - shape / 2 + Z.of_nat W ->
     get_image_patch (L :: rest) [inject_Z t; inject_Z y; inject_Z x] shape
     = get_image_patch (L :: rest)
         [inject_Z t; inject_Z y; inject_Z (x + Z.of_nat W)] shape) /\
    (y + shape / 2 = 0 ->
     get_image_patch (L :: rest) [inject_Z t; inject_Z y; inject_Z x] shape
     = Raise (ValueError_patch_shape [0])) /\
    (x + shape / 2 = 0 ->
     exists got,
       get_image_patch (L :: rest) [inject_Z t; inject_Z y; inject_Z x] shape
       = Raise (ValueError_patch_shape got)).
Proof.
  intros L rest t y x shape img H W Hidx [HH HW] Hshape.
  assert (Hpad : 0 <= shape / 2) by (apply Z.div_pos; lia).
  assert (Hidx' : index (data L) (int_of_float (inject_Z t)) = Ok img)
    by (rewrite int_of_float_inject_Z; exact Hidx).
  assert (Hempty : forall {A} (l : list A) c,
             c + shape / 2 = 0 ->
             slice l (c - shape / 2) (c + shape / 2) = []).
  { intros A l c Hc.
    assert (Hlen : Z.of_nat (length (slice l (c - shape / 2)
                                       (c + shape / 2))) = 0).
    { rewrite slice_length. unfold slice_bound.
      destruct (c - shape / 2 <? 0) eqn:E1;
        destruct (c + shape / 2 <? 0) eqn:E2; lia. }
    destruct (slice l _ _); [reflexivity|simpl in Hlen; lia]. }
  split; [|split; [|split]].
  - intros Hneg Hwrap.
    rewrite !(get_image_patch_unfold _ _ _ _ _ _ _ Hidx'). cbv zeta.
    rewrite !int_of_float_inject_Z.
    replace (y + Z.of_nat H - shape / 2) with (y - shape / 2 + Z.of_nat H)
      by lia.
    replace (y + Z.of_nat H + shape / 2) with (y + shape / 2 + Z.of_nat H)
      by lia.
    rewrite <- HH. rewrite <- slice_wrap by lia. reflexivity.
  - intros Hneg Hwrap.
    rewrite !(get_image_patch_unfold _ _ _ _ _ _ _ Hidx'). cbv zeta.
    rewrite !int_of_float_inject_Z.
    assert (Hrows : forall a b,
               map (fun row => slice row (x - shape / 2) (x + shape / 2))
                   (slice img a b)
               = map (fun row => slice row (x + Z.of_nat W - shape / 2)
                                   (x + Z.of_nat W + shape / 2))
                     (slice img a b)).
    { intros a b. apply map_ext_in. intros row Hin.
      rewrite Forall_forall in HW.
      assert (Hrow : length row = W) by (apply HW; eapply slice_In; eauto).
      replace (x + Z.of_nat W - shape / 2)
        with (x - shape / 2 + Z.of_nat (length row)) by lia.
      replace (x + Z.of_nat W + shape / 2)
        with (x + shape / 2 + Z.of_nat (length row)) by lia.
      apply slice_wrap; lia. }
    rewrite Hrows. reflexivity.
  - intros Hedge.
    rewrite (get_image_patch_unfold _ _ _ _ _ _ _ Hidx'). cbv zeta.
    rewrite !int_of_float_inject_Z, (Hempty _ img y Hedge). simpl map.
    destruct (list_eq_dec _ _ _) as [Heq|_]; [|reflexivity].
    discriminate Heq.
  - intros Hedge.
    rewrite (get_image_patch_unfold _ _ _ _ _ _ _ Hidx'). cbv zeta.
    rewrite !int_of_float_inject_Z.
    destruct (list_eq_dec _ _ _) as [Heq|_]; [exfalso|eauto].
    apply shape_two_dims in Heq as (Hlen & Hne & Hcols).
    destruct (slice img _ _) as [|row rows]; [contradiction|].
    simpl in Hcols. apply Forall_inv in Hcols.
    rewrite (Hempty _ row x Hedge) in Hcols. simpl in Hcols, Hlen. lia.
Qed.

Lemma get_image_patch_negative_window_is_shifted_witness :
  get_image_patch [GFP4] [inject_Z 0; inject_Z (-2); inject_Z 2] 2
  = get_image_patch [GFP4] [inject_Z 0; inject_Z (-2 + Z.of_nat 4); inject_Z 2] 2
  /\
  get_image_patch [GFP4] [inject_Z 0; inject_Z (-1); inject_Z 2] 2
  = Raise (ValueError_patch_shape [0]).
Proof.
  destruct (get_image_patch_negative_window_is_shifted GFP4 [] 0 (-2) 2 2
              frame4 4 4) as (Hshift & _).
  - reflexivity.
  - repeat constructor.
  - lia.
  - destruct (get_image_patch_negative_window_is_shifted GFP4 [] 0 (-1) 2 2
                frame4 4 4) as (_ & _ & Hedge & _).
    + reflexivity.
    + repeat constructor.
    + lia.
    + split.
      * apply Hshift; [reflexivity|vm_compute; discriminate].
      * apply Hedge. reflexivity.
Defined.

Lemma int_of_float_nonpos q : (q <= 0)%Q -> int_of_float q = Qceiling q.
Proof.
  destruct q as [n d]. unfold Qle, int_of_float, Qceiling, Qfloor. simpl.
  rewrite Z.mul_1_r. intros Hn.
  rewrite <- (Z.opp_involutive n) at 1.
  rewrite Z.quot_opp_l by discriminate.
  rewrite Z.quot_div_nonneg by lia. reflexivity.
Qed.

(** X4.  The result depends on the truncated coordinates only, and
    truncation is toward zero: for a point with coordinates that are all
    zero or negative the result is that of the integer point
    [(ceil t, ceil y, ceil x)], so a point less than one pixel above or left
    of the frame is treated as lying on row or column 0. *)
Theorem get_image_patch_truncates_toward_zero :
  forall (layers : list Layer) (t y x : Q) (shape : Z),
    get_image_patch layers [t; y; x] shape
    = get_image_patch layers
        [inject_Z (int_of_float t); inject_Z (int_of_float y);
         inject_Z (int_of_float x)] shape /\
    ((t <= 0)%Q -> (y <= 0)%Q -> (x <= 0)%Q ->
     get_image_patch layers [t; y; x] shape
     = get_image_patch layers
         [inject_Z (Qceiling t); inject_Z (Qceiling y);
          inject_Z (Qceiling x)] shape) /\
    ((-1 < y)%Q -> (y <= 0)%Q -> int_of_float y = 0).
Proof.
  intros layers t y x shape. split; [|split].
  - unfold get_image_patch. simpl map.
    rewrite !int_of_float_inject_Z. reflexivity.
  - intros Ht Hy Hx. unfold get_image_patch. simpl map.
    rewrite !int_of_float_inject_Z, !int_of_float_nonpos by assumption.
    reflexivity.
  - intros Hlo Hhi. rewrite int_of_float_nonpos by exact Hhi.
    destruct y as [n d]. unfold Qlt, Qle, Qceiling, Qfloor in *.
    simpl in *.
    assert (Hdiv : (- n) / Z.pos d = 0) by (apply Z.div_small; lia).
    rewrite Hdiv. reflexivity.
Qed.

(* ===================================================================== *)
(** * More on the export *)
(* ===================================================================== *)







Section FirstFailure.
Variables (image_layers : list Layer) (states : list string)
          (SESSION_TIME : string) (shape : Z).

Lemma write_patches_first_failure : forall todo myzip i idx coords label e,
  nth_error todo i = Some (idx, coords) ->
  (forall j idx' coords',
      (j < i)%nat -> nth_error todo j = Some (idx', coords') ->
      (exists label', nth_error states idx' = Some label') /\
      exists patch, get_image_patch image_layers coords' shape = Ok patch) ->
  nth_error states idx = Some label ->
  get_image_patch image_layers coords shape = Raise e ->
  exists written,
    write_patches image_layers states SESSION_TIME shape todo myzip
      = (myzip ++ written, Raise e) /\
    length written = i /\
    forall j idx' coords',
      (j < i)%nat -> nth_error todo j = Some (idx', coords') ->
      exists label' patch,
        nth_error states idx' = Some label' /\
        get_image_patch image_layers coords' shape = Ok patch /\
        nth_error written j
        = Some (image_patch_fn label' SESSION_TIME idx',
                Tiff (patch_dtype image_layers) patch).
Proof.
  induction todo as [|[idx0 coords0] todo IH];
    intros myzip i idx coords label e Hi Hbefore Hlabel Hraise.
  - destruct i; discriminate.
  - destruct i as [|i]; simpl in Hi.
    + injection Hi as -> ->. exists []. simpl.
      apply index_nat in Hlabel. rewrite Hlabel. simpl.
      rewrite Hraise. simpl. rewrite app_nil_r.
      repeat split. intros; lia.
    + destruct (Hbefore 0%nat idx0 coords0 ltac:(lia) eq_refl)
        as ((label0 & Hlabel0) & patch0 & Hpatch0).
      destruct (IH (myzip ++ [(image_patch_fn label0 SESSION_TIME idx0,
                               Tiff (patch_dtype image_layers) patch0)])
                  i idx coords label e Hi) as (written & Hrun & Hlen & Hnth);
        auto.
      { intros j idx' coords' Hj Hnthj.
        apply (Hbefore (S j) idx' coords'); [lia|exact Hnthj]. }
      exists ((image_patch_fn label0 SESSION_TIME idx0,
               Tiff (patch_dtype image_layers) patch0) :: written).
      simpl. pose proof Hlabel0 as Hl0. apply index_nat in Hl0.
      rewrite Hl0. simpl. rewrite Hpatch0. simpl.
      rewrite Hrun, <- app_assoc. simpl.
      repeat split; [lia|].
      intros [|j] idx' coords' Hj Hnthj; simpl in Hnthj.
      * injection Hnthj as <- <-. exists label0, patch0. auto.
      * apply (Hnth j idx' coords'); [lia|exact Hnthj].
Qed.
End FirstFailure.

Lemma cnn_annotation_widget_raise :
  forall (layers : list Layer) (points_layer : Points)
         (SESSION_TIME : string) (shape : Z) (use_visible_layers : bool)
         (idx : nat) (coords : list Q) (e : exn),
    (length (pdata points_layer) <= length (State points_layer))%nat ->
    nth_error (pdata points_layer) idx = Some coords ->
    (forall j coords',
        (j < idx)%nat -> nth_error (pdata points_layer) j = Some coords' ->
        exists patch,
          get_image_patch (filter isinstance_Image layers) coords' shape
          = Ok patch) ->
    get_image_patch (filter isinstance_Image layers) coords shape = Raise e ->
    exists tiffs,
      cnn_annotation_widget layers points_layer SESSION_TIME shape
        use_visible_layers
      = (mkZip ("annotation_" ++ SESSION_TIME ++ ".zip") tiffs, Raise e) /\
      length tiffs = idx /\
      forall j coords',
        (j < idx)%nat -> nth_error (pdata points_layer) j = Some coords' ->
        exists label patch,
          nth_error (State points_layer) j = Some label /\
          get_image_patch (filter isinstance_Image layers) coords' shape
          = Ok patch /\
          nth_error tiffs j
          = Some ((label ++ "/" ++ label ++ "_" ++ SESSION_TIME ++ "_"
                     ++ str_nat j ++ ".tif")%string,
                  Tiff (patch_dtype (filter isinstance_Image layers))
                    patch).
Proof.
  intros layers points_layer SESSION_TIME shape use_visible_layers idx coords
    e Hstates Hidx Hbefore Hraise.
  assert (Hlabels : forall j, (j < length (pdata points_layer))%nat ->
                              exists label,
                                nth_error (State points_layer) j = Some label).
  { intros j Hj.
    destruct (nth_error (State points_layer) j) as [label|] eqn:E; [eauto|].
    apply nth_error_None in E. lia. }
  assert (Hlt : (idx < length (pdata points_layer))%nat)
    by (apply nth_error_Some; congruence).
  destruct (Hlabels idx Hlt) as (label & Hlabel).
  assert (Henum : forall j idx' coords',
             nth_error (enumerate (pdata points_layer)) j
             = Some (idx', coords') ->
             idx' = j /\ nth_error (pdata points_layer) j = Some coords').
  { intros j idx' coords' Hj. unfold enumerate in Hj.
    rewrite enumerate_from_nth in Hj.
    destruct (nth_error (pdata points_layer) j); [|discriminate].
    injection Hj as <- <-. auto. }
  destruct (write_patches_first_failure (filter isinstance_Image layers)
              (State points_layer) SESSION_TIME shape
              (enumerate (pdata points_layer)) [] idx idx coords label e)
    as (written & Hrun & Hlen & Hnth); auto.
  { unfold enumerate. rewrite enumerate_from_nth, Hidx. reflexivity. }
  { intros j idx' coords' Hj Hnthj.
    destruct (Henum _ _ _ Hnthj) as [-> Hc]. split.
    - apply Hlabels. lia.
    - eapply Hbefore; eauto. }
  exists written. split.
  - unfold cnn_annotation_widget. cbv zeta. rewrite Hrun. reflexivity.
  - split; [exact Hlen|].
    intros j coords' Hj Hc.
    apply (Hnth j j coords'); [exact Hj|].
    unfold enumerate. rewrite enumerate_from_nth, Hc. reflexivity.
Qed.

(** X6.  The export stops at the first point that cannot be cropped.  When
    every point before position [idx] can be cropped and the point at [idx]
    raises [e], the call raises the same [e], and the archive left behind
    holds exactly the [idx] patches of the points before it, under their
    usual names and in order; the JSON member is missing. *)
Theorem export_stops_at_first_failing_point :
  forall (layers : list Layer) (points_layer : Points)
         (SESSION_TIME : string) (shape : Z) (use_visible_layers : bool)
         (idx : nat) (coords : list Q) (e : exn),
    (length (pdata points_layer) <= length (State points_layer))%nat ->
    nth_error (pdata points_layer) idx = Some coords ->
    (forall j coords',
        (j < idx)%nat -> nth_error (pdata points_layer) j = Some coords' ->
        exists patch,
          get_image_patch (filter isinstance_Image layers) coords' shape
          = Ok patch) ->
    get_image_patch (filter isinstance_Image layers) coords shape = Raise e ->
    exists tiffs,
      cnn_annotation_widget layers points_layer SESSION_TIME shape
        use_visible_layers
      = (mkZip ("annotation_" ++ SESSION_TIME ++ ".zip") tiffs, Raise e) /\
      length tiffs = idx /\
      forall j coords',
        (j < idx)%nat -> nth_error (pdata points_layer) j = Some coords' ->
        exists label patch,
          nth_error (State points_layer) j = Some label /\
          get_image_patch (filter isinstance_Image layers) coords' shape
          = Ok patch /\
          nth_error tiffs j
          = Some ((label ++ "/" ++ label ++ "_" ++ SESSION_TIME ++ "_"
                     ++ str_nat j ++ ".tif")%string,
                  Tiff (patch_dtype (filter isinstance_Image layers))
                    patch).
Proof. exact cnn_annotation_widget_raise. Qed.

Lemma export_stops_at_first_failing_point_witness :
  exists tiffs,
    cnn_annotation_widget [GFP4] second_point_outside "T" 2 true
    = (mkZip "annotation_T.zip" tiffs, Raise (ValueError_patch_shape [1; 2])) /\
    length tiffs = 1%nat.
Proof.
  destruct (export_stops_at_first_failing_point [GFP4] second_point_outside
              "T" 2 true 1 [0; 4; 2]%Q (ValueError_patch_shape [1; 2]))
    as (tiffs & Hrun & Hlen & _).
  - simpl. lia.
  - reflexivity.
  - intros [|j] coords' Hj Hc; [|lia].
    injection Hc as <-. eexists. vm_compute. reflexivity.
  - vm_compute. reflexivity.
  - exists tiffs. split; assumption.
Defined.







(** X8.  In a successful export with labels from [LABELS] no two members
    of the archive share a name, and opening a member by name gives back
    what was written under it: the patch of point [idx] under
    [<Label>/<Label>_<time>_<idx>.tif], the exported dictionary under
    [annotation_<time>.json]. *)
Theorem export_members_open_by_name :
  forall (layers : list Layer) (points_layer : Points)
         (SESSION_TIME : string) (shape : Z) (use_visible_layers : bool)
         (zip : ZipFile),
    cnn_annotation_widget layers points_layer SESSION_TIME shape
      use_visible_layers = (zip, Ok tt) ->
    Forall (fun label => In label LABELS) (State points_layer) ->
    NoDup (namelist (members zip)) /\
    (forall idx coords,
        nth_error (pdata points_layer) idx = Some coords ->
        exists label patch,
          nth_error (State points_layer) idx = Some label /\
          get_image_patch (filter isinstance_Image layers) coords shape
          = Ok patch /\
          zip_open (members zip) (image_patch_fn label SESSION_TIME idx)
          = Ok (Tiff (patch_dtype (filter isinstance_Image layers))
                  patch)) /\
    zip_open (members zip) ("annotation_" ++ SESSION_TIME ++ ".json")
    = Ok (Text (build_export_data layers points_layer shape
                  use_visible_layers)).
Proof.
  intros layers points_layer SESSION_TIME shape use_visible_layers zip Hrun
    Hlabels.
  destruct (cnn_annotation_widget_ok _ _ _ _ _ _ Hrun)
    as (_ & tiffs & Hmem & Hlen & Hnth).
  set (json_fn := ("annotation_" ++ SESSION_TIME ++ ".json")%string) in *.
  set (doc := build_export_data layers points_layer shape use_visible_layers)
    in *.
  rewrite Forall_forall in Hlabels.
  assert (Hclass : forall i f c,
             nth_error (members zip) i = Some (f, c) ->
             ((i < length tiffs)%nat /\
              exists label, In label LABELS /\
                            f = image_patch_fn label SESSION_TIME i) \/
             (i = length tiffs /\ f = json_fn /\ c = Text doc)).
  { intros i f c Hi. rewrite Hmem in Hi.
    destruct (Nat.lt_ge_cases i (length tiffs)) as [Hlt|Hge].
    - left. split; [exact Hlt|].
      rewrite nth_error_app1 in Hi by exact Hlt.
      destruct (nth_error (pdata points_layer) i) as [coords|] eqn:E.
      2:{ apply nth_error_None in E. lia. }
      destruct (Hnth _ _ E) as (label & patch & Hl & _ & Ht).
      rewrite Hi in Ht. injection Ht as -> _.
      exists label. split; [|reflexivity].
      apply Hlabels. eapply nth_error_In; eauto.
    - right. rewrite nth_error_app2 in Hi by exact Hge.
      destruct (i - length tiffs)%nat as [|[|m]] eqn:E; simpl in Hi;
        [|discriminate|discriminate].
      injection Hi as <- <-. repeat split. lia. }
  assert (Huniq : forall i j f c c',
             nth_error (members zip) i = Some (f, c) ->
             nth_error (members zip) j = Some (f, c') -> j = i).
  { intros i j f c c' Hi Hj.
    destruct (Hclass _ _ _ Hi) as [(Hlt & l & Hl & Hf)|(Hi' & Hf & _)];
      destruct (Hclass _ _ _ Hj) as [(Hlt' & l' & Hl' & Hf')|(Hj' & Hf' & _)].
    - rewrite Hf in Hf'. symmetry.
      exact (image_patch_fn_inj _ _ _ _ _ Hl Hl' Hf').
    - exfalso. rewrite Hf in Hf'.
      exact (image_patch_fn_not_json _ _ _ Hl Hf').
    - exfalso. rewrite Hf' in Hf.
      exact (image_patch_fn_not_json _ _ _ Hl' Hf).
    - congruence. }
  split; [|split].
  - apply NoDup_nth_error. intros i j Hi Hij.
    unfold namelist in *. rewrite length_map in Hi.
    rewrite !nth_error_map in Hij.
    destruct (nth_error (members zip) i) as [[f c]|] eqn:Ei.
    2:{ apply nth_error_None in Ei. lia. }
    destruct (nth_error (members zip) j) as [[f' c']|] eqn:Ej;
      [|discriminate].
    simpl in Hij. injection Hij as <-. symmetry. eapply Huniq; eauto.
  - intros idx coords Hidx.
    destruct (Hnth _ _ Hidx) as (label & patch & Hl & Hp & Ht).
    exists label, patch. repeat split; auto.
    apply (zip_open_unique _ idx).
    + rewrite Hmem, nth_error_app1; [exact Ht|].
      apply nth_error_Some. congruence.
    + intros j f' c' Hj ->. eapply Huniq; eauto.
      rewrite Hmem, nth_error_app1; [exact Ht|].
      apply nth_error_Some. congruence.
  - apply (zip_open_unique _ (length tiffs)).
    + rewrite Hmem, nth_error_app2, Nat.sub_diag by lia. reflexivity.
    + intros j f' c' Hj ->. eapply Huniq; eauto.
      rewrite Hmem, nth_error_app2, Nat.sub_diag by lia. reflexivity.
Qed.

Lemma export_members_open_by_name_witness :
  NoDup (namelist
           (members (fst (cnn_annotation_widget [GFP4] two_points "T" 2
                            true)))).
Proof.
  apply (export_members_open_by_name [GFP4] two_points "T" 2 true).
  - vm_compute. reflexivity.
  - constructor; [simpl; auto 10|].
    constructor; [simpl; auto 10|constructor].
Defined.

(** X9.  What the JSON object holds under ["shape"] and under a layer
    name.  ["shape"] holds the patch size unless an exported layer is itself
    named ["shape"].  A visible image layer exported with
    [use_visible_layers] set, whose name is neither ["labels"] nor a
    ["coords-<dim>"] key, has its metadata under its name, provided no later
    exported layer carries the same name (a later one would replace it). *)
Theorem export_data_shape_and_metadata :
  forall (before after : list Layer) (layer : Layer) (points_layer : Points)
         (shape : Z) (use_visible_layers : bool),
    let layers := before ++ layer :: after in
    let export_data :=
      build_export_data layers points_layer shape use_visible_layers in
    ((forall l, In l layers -> isinstance_Image l = true ->
                use_visible_layers && visible l = true ->
                lname l <> "shape") ->
     dict_get export_data "shape" = Some (JInt shape)) /\
    (isinstance_Image layer = true ->
     use_visible_layers && visible layer = true ->
     lname layer <> "labels" ->
     (forall dim, (dim < pndim points_layer)%nat ->
                  lname layer <> ("coords-" ++ str_nat dim)%string) ->
     (forall l, In l after -> isinstance_Image l = true ->
                use_visible_layers && visible l = true ->
                lname l <> lname layer) ->
     dict_get export_data (lname layer) = Some (JMetadata (metadata layer))).
Proof.
  intros before after layer points_layer shape use_visible_layers layers
    export_data. subst export_data layers. split.
  - apply build_export_data_shape.
  - apply build_export_data_metadata.
Qed.

Lemma export_data_shape_and_metadata_witness :
  dict_get (build_export_data ([] ++ GFP4 :: []) two_points 2 true) "GFP"
  = Some (JMetadata [("filename", "movie.tif")]).
Proof.
  apply (export_data_shape_and_metadata [] [] GFP4 two_points 2 true).
  - reflexivity.
  - reflexivity.
  - discriminate.
  - intros dim _. simpl. discriminate.
  - intros l [].
Defined.

(* ===================================================================== *)
(** * More on the label states *)
(* ===================================================================== *)

Lemma next_label_step (g : Gui) :
  exists g', next_label g = Ok g' /\
             value (state g') = (value (state g) + 1) mod 5.
Proof.
  destruct g as [s]. destruct s; eexists; repeat split.
Qed.

Lemma previous_label_step (g : Gui) :
  exists g', previous_label g = Ok g' /\
             value (state g') = (value (state g) - 1) mod 5.
Proof.
  destruct g as [s]. destruct s; eexists; repeat split.
Qed.

Lemma value_inj (s s' : CellState) : value s = value s' -> s = s'.
Proof. destruct s, s'; simpl; intros H; try reflexivity; discriminate H. Qed.

Lemma value_range (s : CellState) : 0 <= value s < 5.
Proof. destruct s; simpl; lia. Qed.

(** X10.  [n] presses of [.] move the state forward by [n] modulo 5, [n]
    presses of [,] move it back by [n] modulo 5, no press ever raises, and
    [n] presses of one key followed by [n] presses of the other restore the
    state. *)
Theorem presses_add_modulo_5 :
  forall (g : Gui) (n : nat),
    (exists g', press next_label n g = Ok g' /\
                value (state g') = (value (state g) + Z.of_nat n) mod 5) /\
    (exists g', press previous_label n g = Ok g' /\
                value (state g') = (value (state g) - Z.of_nat n) mod 5) /\
    (exists g' g'', press next_label n g = Ok g' /\
                    press previous_label n g' = Ok g'' /\
                    state g'' = state g) /\
    (exists g' g'', press previous_label n g = Ok g' /\
                    press next_label n g' = Ok g'' /\
                    state g'' = state g).
Proof.
  intros g n.
  assert (Hnext : forall g m,
             exists g', press next_label m g = Ok g' /\
                        value (state g')
                        = (value (state g) + Z.of_nat m) mod 5).
  { clear. intros g. induction m as [|m (g1 & Hrun & Hval)].
    - exists g. split; [reflexivity|].
      rewrite Z.add_0_r, Z.mod_small by apply value_range. reflexivity.
    - destruct (next_label_step g1) as (g2 & Hstep & Hval2).
      exists g2. unfold press in *. simpl. rewrite Hrun. simpl.
      split; [exact Hstep|].
      rewrite Hval2, Hval, Z.add_mod_idemp_l by lia. f_equal. lia. }
  assert (Hprev : forall g m,
             exists g', press previous_label m g = Ok g' /\
                        value (state g')
                        = (value (state g) - Z.of_nat m) mod 5).
  { clear. intros g. induction m as [|m (g1 & Hrun & Hval)].
    - exists g. split; [reflexivity|].
      rewrite Z.sub_0_r, Z.mod_small by apply value_range. reflexivity.
    - destruct (previous_label_step g1) as (g2 & Hstep & Hval2).
      exists g2. unfold press in *. simpl. rewrite Hrun. simpl.
      split; [exact Hstep|].
      rewrite Hval2, Hval, Zminus_mod_idemp_l. f_equal. lia. }
  split; [apply Hnext|]. split; [apply Hprev|]. split.
  - destruct (Hnext g n) as (g' & Hrun & Hval).
    destruct (Hprev g' n) as (g'' & Hrun' & Hval').
    exists g', g''. repeat split; try assumption.
    apply value_inj. rewrite Hval', Hval, Zminus_mod_idemp_l.
    replace (value (state g) + Z.of_nat n - Z.of_nat n) with (value (state g))
      by lia.
    apply Z.mod_small, value_range.
  - destruct (Hprev g n) as (g' & Hrun & Hval).
    destruct (Hnext g' n) as (g'' & Hrun' & Hval').
    exists g', g''. repeat split; try assumption.
    apply value_inj. rewrite Hval', Hval, Z.add_mod_idemp_l by lia.
    replace (value (state g) - Z.of_nat n + Z.of_nat n) with (value (state g))
      by lia.
    apply Z.mod_small, value_range.
Qed.

(** X11.  [CellState(v)] returns the member whose value is [v] and raises
    [ValueError] for every other integer; [value] and [name] are one-to-one;
    and the names sit in [LABELS] at the position given by their value, so
    that the state a point is annotated with and the numeric label
    [create_tf_record] derives from the exported name agree. *)
Theorem CellState_values_index_LABELS :
  (forall s, CellState_of_value (value s) = Ok s) /\
  (forall v s, CellState_of_value v = Ok s -> value s = v) /\
  (forall v, v < 0 \/ 4 < v ->
             CellState_of_value v = Raise (ValueError_enum v)) /\
  (forall s s', name s = name s' -> s = s') /\
  (forall s, nth_error LABELS (Z.to_nat (value s)) = Some (name s)) /\
  map name CellState_members = LABELS /\
  Z.of_nat (length LABELS) = len_CellState.
Proof.
  split; [intros []; reflexivity|].
  split.
  { intros v s. unfold CellState_of_value.
    destruct (find _ _) as [s'|] eqn:E; [|discriminate].
    apply find_some in E as [_ E]. intros H. injection H as <-.
    apply Z.eqb_eq. exact E. }
  split.
  { intros v Hv. unfold CellState_of_value.
    destruct (find _ _) as [s'|] eqn:E; [exfalso|reflexivity].
    apply find_some in E as [_ E]. apply Z.eqb_eq in E.
    pose proof (value_range s'). lia. }
  split.
  { intros s s'. destruct s, s'; simpl; intros H;
      try reflexivity; discriminate H. }
  split; [intros []; reflexivity|].
  split; reflexivity.
Qed.

(* ===================================================================== *)
(** * More on the dataset builder *)
(* ===================================================================== *)

(** X12.  When no archive named [annotation_*.zip] holds a member that is
    a patch file of one of the labels (so also for an empty directory or an
    empty list of labels), [create_tf_record] raises [ValueError]: there is
    nothing to stack, and nothing is written. *)
Theorem create_tf_record_without_patches_raises :
  forall (decodes : dtype -> bool)
         (interp : bool -> image -> nat * nat -> nat -> nat -> Q)
         (root : list (string * archive)) (filename : string)
         (labels : list string),
    (forall zfn zip_data label f,
        In (zfn, zip_data) root -> is_annotation_zip zfn = true ->
        In label labels -> In f (namelist zip_data) ->
        is_patch_file label f = false) ->
    create_tf_record decodes interp root filename labels
    = Raise ValueError_empty_stack.
Proof.
  intros decodes interp root filename labels Hnone.
  rewrite create_tf_record_eq.
  assert (Hvisits : visits labels
                      (filter (fun f => is_annotation_zip (fst f)) root) = []).
  { destruct (visits labels _) as [|[[z k] f] vs] eqn:E; [reflexivity|].
    exfalso.
    assert (Hin : In (z, k, f)
                    (visits labels
                       (filter (fun f => is_annotation_zip (fst f)) root)))
      by (rewrite E; left; reflexivity).
    apply visits_In in Hin as ((zfn & Hz) & label & Hk & Hf).
    apply filter_In in Hz as [Hz Hzip]. simpl in Hzip.
    apply filter_In in Hf as [Hf Hpatch].
    rewrite (Hnone zfn z label f) in Hpatch; auto; [discriminate|].
    eapply nth_error_In; eauto. }
  rewrite Hvisits. reflexivity.
Qed.

Lemma create_tf_record_without_patches_raises_witness :
  create_tf_record decodes_8_16 copy_interp [("notes.txt", session_T)]
    "CNN_train.tfrecord" LABELS
  = Raise ValueError_empty_stack.
Proof.
  apply create_tf_record_without_patches_raises.
  intros zfn zip_data label f [Hin|[]] Hzip. injection Hin as <- <-.
  vm_compute in Hzip. discriminate Hzip.
Defined.

(** X13.  The first member that does not decode, in visiting order, stops
    [create_tf_record]: when every visit before it can be read and the
    visit itself raises [e], the call raises the same [e], whatever comes
    after, and nothing is written. *)
Theorem create_tf_record_first_read_error :
  forall (decodes : dtype -> bool)
         (interp : bool -> image -> nat * nat -> nat -> nat -> Q)
         (root : list (string * archive)) (filename : string)
         (labels : list string) (before after : list visit) (v : visit)
         (e : exn),
    visits labels (filter (fun f => is_annotation_zip (fst f)) root)
    = before ++ v :: after ->
    (forall u, In u before -> exists img, visit_read decodes u = Ok img) ->
    visit_read decodes v = Raise e ->
    create_tf_record decodes interp root filename labels = Raise e.
Proof.
  intros decodes interp root filename labels before after v e Hvisits Hbefore
    Hraise.
  rewrite create_tf_record_eq, Hvisits, mapM_app.
  destruct (mapM_total (visit_read decodes) before Hbefore) as [imgs ->].
  simpl. rewrite Hraise. reflexivity.
Qed.

Lemma create_tf_record_first_read_error_witness :
  create_tf_record decodes_8_16 copy_interp
    [("annotation_B.zip", broken_session)] "CNN_train.tfrecord" LABELS
  = Raise (ReadError "Metaphase/notes.tif").
Proof.
  apply (create_tf_record_first_read_error decodes_8_16 copy_interp
           [("annotation_B.zip", broken_session)] "CNN_train.tfrecord" LABELS
           [(broken_session, 0%nat, "Interphase/Interphase_T_0.tif")]
           [(broken_session, 3%nat, "Anaphase/Anaphase_T_2.tif")]
           (broken_session, 2%nat, "Metaphase/notes.tif")).
  - vm_compute. reflexivity.
  - intros u [<-|[]]. eexists. vm_compute. reflexivity.
  - vm_compute. reflexivity.
Defined.

Lemma visits_app labels z1 z2 :
  visits labels (z1 ++ z2) = visits labels z1 ++ visits labels z2.
Proof. unfold visits. apply flat_map_app. Qed.

(** X14.  Directories compose: when [create_tf_record] succeeds on two
    directory listings, on the one followed by the other it writes the
    images of the first followed by those of the second, and the labels
    likewise. *)
Theorem create_tf_record_app :
  forall (decodes : dtype -> bool)
         (interp : bool -> image -> nat * nat -> nat -> nat -> Q)
         (root1 root2 : list (string * archive)) (filename : string)
         (labels : list string) (fn1 fn2 : string)
         (images1 images2 : list (list (list (list Z))))
         (labels1 labels2 : list Z),
    create_tf_record decodes interp root1 filename labels
      = Ok (fn1, images1, labels1) ->
    create_tf_record decodes interp root2 filename labels
      = Ok (fn2, images2, labels2) ->
    create_tf_record decodes interp (root1 ++ root2) filename labels
    = Ok (filename, images1 ++ images2, labels1 ++ labels2).
Proof.
  intros decodes interp root1 root2 filename labels fn1 fn2 images1 images2
    labels1 labels2 H1 H2.
  apply create_tf_record_visits in H1 as (imgs1 & Hread1 & Hne1 & Hout1).
  apply create_tf_record_visits in H2 as (imgs2 & Hread2 & _ & Hout2).
  injection Hout1 as -> -> ->. injection Hout2 as -> -> ->.
  apply create_tf_record_visits. exists (imgs1 ++ imgs2).
  rewrite filter_app, visits_app, mapM_app, Hread1, Hread2.
  repeat split.
  - intros Hnil. apply app_eq_nil in Hnil as [Hnil _]. contradiction.
  - rewrite !map_app. reflexivity.
Qed.

Lemma create_tf_record_app_witness :
  exists images labels_arr,
    create_tf_record decodes_8_16 copy_interp (root_T ++ root_T)
      "CNN_train.tfrecord" LABELS
    = Ok ("CNN_train.tfrecord", images ++ images, labels_arr ++ labels_arr).
Proof.
  destruct (create_tf_record decodes_8_16 copy_interp root_T
              "CNN_train.tfrecord" LABELS)
    as [[[out_fn images] labels_arr]|e] eqn:E.
  - exists images, labels_arr.
    exact (create_tf_record_app decodes_8_16 copy_interp root_T root_T
             "CNN_train.tfrecord" LABELS _ _ _ _ _ _ E E).
  - exfalso. vm_compute in E. discriminate E.
Defined.

Lemma find_app_first {A} (p : A -> bool) (l1 l2 : list A) :
  find p (l1 ++ l2)
  = match find p l1 with Some x => Some x | None => find p l2 end.
Proof.
  induction l1 as [|a l1 IH]; simpl; [reflexivity|].
  destruct (p a); [reflexivity|exact IH].
Qed.

Lemma zip_open_skip (z1 z2 : archive) (f0 f : string) (c0 : content) :
  f <> f0 ->
  zip_open (z1 ++ (f0, c0) :: z2) f = zip_open (z1 ++ z2) f.
Proof.
  intros Hne. unfold zip_open.
  rewrite !rev_app_distr. simpl. rewrite <- app_assoc. simpl.
  rewrite !find_app_first. simpl.
  destruct (String.eqb_spec f0 f) as [Heq|_]; [congruence|reflexivity].
Qed.

Lemma mapM_ext_in {A B} (f g : A -> result B) (l : list A) :
  (forall a, In a l -> f a = g a) -> mapM f l = mapM g l.
Proof.
  induction l as [|a l IH]; simpl; intros Hfg; [reflexivity|].
  rewrite (Hfg a (or_introl eq_refl)), IH by auto. reflexivity.
Qed.

Lemma flat_map_ext_in {A B} (f g : A -> list B) (l : list A) :
  (forall a, In a l -> f a = g a) -> flat_map f l = flat_map g l.
Proof.
  induction l as [|a l IH]; simpl; intros Hfg; [reflexivity|].
  rewrite (Hfg a (or_introl eq_refl)), IH by auto. reflexivity.
Qed.

Section IgnoredMember.
Variables (decodes : dtype -> bool) (labels : list string)
          (z1 z2 : archive) (f0 : string) (c0 : content).

Hypothesis no_patch_file :
  forall label, In label labels -> is_patch_file label f0 = false.

Lemma patch_files_skip label :
  In label labels ->
  patch_files label (z1 ++ (f0, c0) :: z2) = patch_files label (z1 ++ z2).
Proof.
  intros Hin. unfold patch_files, namelist.
  rewrite !map_app, !filter_app. simpl.
  rewrite (no_patch_file _ Hin). reflexivity.
Qed.

Lemma visits_of_zip_skip :
  visits_of_zip labels (z1 ++ (f0, c0) :: z2)
  = map (fun v : visit => (z1 ++ (f0, c0) :: z2, snd (fst v), snd v))
        (visits_of_zip labels (z1 ++ z2)).
Proof.
  unfold visits_of_zip. rewrite map_flat_map.
  apply flat_map_ext_in. intros [k label] Hin. simpl.
  rewrite patch_files_skip, map_map; [reflexivity|].
  apply enumerate_In in Hin. eapply nth_error_In; eauto.
Qed.

Lemma visits_of_zip_read_skip :
  mapM (visit_read decodes) (visits_of_zip labels (z1 ++ (f0, c0) :: z2))
  = mapM (visit_read decodes) (visits_of_zip labels (z1 ++ z2)) /\
  map visit_label (visits_of_zip labels (z1 ++ (f0, c0) :: z2))
  = map visit_label (visits_of_zip labels (z1 ++ z2)).
Proof.
  rewrite visits_of_zip_skip. split.
  - rewrite mapM_map. apply mapM_ext_in. intros [[z k] f] Hin.
    assert (Hz : z = z1 ++ z2 /\ exists label,
                   In label labels /\ is_patch_file label f = true).
    { unfold visits_of_zip in Hin.
      apply in_flat_map in Hin as ([k' label] & Hnl & Hin). simpl in Hin.
      apply in_map_iff in Hin as (f' & Heq & Hf). injection Heq as <- <- <-.
      split; [reflexivity|]. exists label. split.
      - apply enumerate_In in Hnl. eapply nth_error_In; eauto.
      - apply filter_In in Hf. tauto. }
    destruct Hz as (-> & label & Hl & Hpatch). simpl.
    unfold read_member. rewrite zip_open_skip; [reflexivity|].
    intros ->. rewrite (no_patch_file _ Hl) in Hpatch. discriminate.
  - rewrite map_map. apply map_ext. intros [[z k] f]. reflexivity.
Qed.
End IgnoredMember.

Lemma visits_cons labels zfn z root :
  visits labels ((zfn, z) :: root)
  = visits_of_zip labels z ++ visits labels root.
Proof. reflexivity. Qed.

(** X15.  What [create_tf_record] does not look at.  A directory entry
    whose name does not both start with [annotation_] and end with [.zip]
    can be added or removed without changing the outcome; and so can, in
    any archive, a member that is a patch file of none of the labels (such
    as the JSON member of an export). *)
Theorem create_tf_record_ignores_other_files :
  forall (decodes : dtype -> bool)
         (interp : bool -> image -> nat * nat -> nat -> nat -> Q)
         (root1 root2 : list (string * archive)) (zfn : string)
         (z1 z2 : archive) (f0 : string) (c0 : content)
         (filename : string) (labels : list string),
    (is_annotation_zip zfn = false ->
     create_tf_record decodes interp (root1 ++ (zfn, z1) :: root2) filename
       labels
     = create_tf_record decodes interp (root1 ++ root2) filename labels) /\
    ((forall label, In label labels -> is_patch_file label f0 = false) ->
     create_tf_record decodes interp
       (root1 ++ (zfn, z1 ++ (f0, c0) :: z2) :: root2) filename labels
     = create_tf_record decodes interp
         (root1 ++ (zfn, z1 ++ z2) :: root2) filename labels).
Proof.
  intros decodes interp root1 root2 zfn z1 z2 f0 c0 filename labels. split.
  - intros Hzip. rewrite !create_tf_record_eq, !filter_app. simpl.
    rewrite Hzip. reflexivity.
  - intros Hnone. rewrite !create_tf_record_eq, !filter_app.
    cbn [filter fst].
    destruct (is_annotation_zip zfn); [|reflexivity].
    rewrite !visits_app, !visits_cons.
    destruct (visits_of_zip_read_skip decodes labels z1 z2 f0 c0 Hnone)
      as [Hread Hlabel].
    rewrite !mapM_app, Hread, !map_app.
    rewrite <- !(map_map visit_label astype_int64), Hlabel. reflexivity.
Qed.

Lemma create_tf_record_ignores_other_files_witness :
  create_tf_record decodes_8_16 copy_interp
    ([] ++ ("annotation_T.zip",
            [("Metaphase/Metaphase_T_0.tif", Tiff uint8 [[11; 12]; [21; 22]]);
             ("Anaphase/Anaphase_T_1.tif", Tiff uint8 [[2; 3]; [12; 13]])]
            ++ ("annotation_T.json", Text [("shape", JInt 2)]) :: []) :: [])
    "CNN_train.tfrecord" LABELS
  = create_tf_record decodes_8_16 copy_interp
      ([] ++ ("annotation_T.zip",
              [("Metaphase/Metaphase_T_0.tif", Tiff uint8 [[11; 12]; [21; 22]]);
               ("Anaphase/Anaphase_T_1.tif", Tiff uint8 [[2; 3]; [12; 13]])]
              ++ []) :: [])
      "CNN_train.tfrecord" LABELS.
Proof.
  apply (create_tf_record_ignores_other_files decodes_8_16 copy_interp [] []
           "annotation_T.zip"
           [("Metaphase/Metaphase_T_0.tif", Tiff uint8 [[11; 12]; [21; 22]]);
            ("Anaphase/Anaphase_T_1.tif", Tiff uint8 [[2; 3]; [12; 13]])]
           [] "annotation_T.json" (Text [("shape", JInt 2)])
           "CNN_train.tfrecord" LABELS).
  intros label Hin. simpl in Hin.
  repeat destruct Hin as [<-|Hin]; try reflexivity; try contradiction.
Defined.

Lemma LABELS_prefix_free (l l' f : string) :
  In l LABELS -> In l' LABELS ->
  String.prefix l f = true -> String.prefix l' f = true -> l = l'.
Proof.
  intros Hl Hl' H1 H2. simpl in Hl, Hl'.
  repeat destruct Hl as [<-|Hl]; try contradiction;
    repeat destruct Hl' as [<-|Hl']; try contradiction;
    try reflexivity; exfalso;
    destruct f as [|c1 [|c2 f]]; cbn [String.prefix] in H1, H2;
    try discriminate H1;
    repeat match type of H1 with
           | context [ascii_dec ?a ?b] => destruct (ascii_dec a b)
           end;
    repeat match type of H2 with
           | context [ascii_dec ?a ?b] => destruct (ascii_dec a b)
           end;
    try discriminate H1; try discriminate H2; congruence.
Qed.

Lemma LABELS_NoDup : NoDup LABELS.
Proof.
  repeat constructor; simpl; intros H;
    repeat destruct H as [H|H]; try discriminate H; exact H.
Qed.

(** X16.  No member is read under two labels of [LABELS]: a name that is a
    patch file of one label is a patch file of no other, so a member of an
    archive is visited under at most one numeric label. *)
Theorem patch_file_of_one_label :
  (forall l l' f,
      In l LABELS -> In l' LABELS ->
      is_patch_file l f = true -> is_patch_file l' f = true -> l = l') /\
  (forall zipfiles zip_data k k' f,
      In (zip_data, k, f) (visits LABELS zipfiles) ->
      In (zip_data, k', f) (visits LABELS zipfiles) -> k = k').
Proof.
  assert (Hone : forall l l' f,
             In l LABELS -> In l' LABELS ->
             is_patch_file l f = true -> is_patch_file l' f = true -> l = l').
  { intros l l' f Hl Hl' H1 H2. unfold is_patch_file, startswith in *.
    apply andb_true_iff in H1 as [_ H1]. apply andb_true_iff in H2 as [_ H2].
    rewrite prefix_LABELS_capitalize in H1, H2 by assumption.
    eapply LABELS_prefix_free; eauto. }
  split; [exact Hone|].
  intros zipfiles zip_data k k' f Hin Hin'.
  apply visits_In in Hin as (_ & l & Hk & Hf).
  apply visits_In in Hin' as (_ & l' & Hk' & Hf').
  apply filter_In in Hf as [_ Hf]. apply filter_In in Hf' as [_ Hf'].
  assert (l = l').
  { eapply Hone; eauto; eapply nth_error_In; eauto. }
  subst l'. pose proof LABELS_NoDup as Hnd.
  rewrite NoDup_nth_error in Hnd. apply Hnd.
  - apply nth_error_Some. congruence.
  - congruence.
Qed.

Lemma upper_idem (c : ascii) : upper (upper c) = upper c.
Proof. destruct c as [[] [] [] [] [] [] [] []]; reflexivity. Qed.

Lemma lower_idem (c : ascii) : lower (lower c) = lower c.
Proof. destruct c as [[] [] [] [] [] [] [] []]; reflexivity. Qed.

Lemma lowercase_idem (s : string) : lowercase (lowercase s) = lowercase s.
Proof.
  induction s as [|c s IH]; simpl; [reflexivity|].
  rewrite lower_idem, IH. reflexivity.
Qed.

Lemma capitalize_idem (s : string) : capitalize (capitalize s) = capitalize s.
Proof.
  destruct s as [|c s]; simpl; [reflexivity|].
  rewrite upper_idem, lowercase_idem. reflexivity.
Qed.

Lemma length_capitalize (s : string) :
  String.length (capitalize s) = String.length s.
Proof.
  destruct s as [|c s]; simpl; [reflexivity|]. f_equal.
  induction s as [|d s IH]; simpl; congruence.
Qed.

Lemma prefix_same_length (p l r : string) :
  String.length p = String.length l ->
  String.prefix p (l ++ r) = true -> p = l.
Proof.
  revert l. induction p as [|c p IH]; intros [|d l] Hlen H; simpl in *;
    try discriminate; [reflexivity|].
  destruct (ascii_dec c d) as [->|]; [|discriminate].
  f_equal. apply IH; [congruence|exact H].
Qed.

(** X17.  An ASCII label is matched through its capitalised form (first
    letter upper case, the rest lower case).  Such a label and its
    capitalised form select the same members; every
    [<Capitalised>/....tif] member is selected; and a label that is not in
    capitalised form, such as one with an upper-case letter after the
    first, never selects the members filed under its own spelling. *)
Theorem patch_files_match_capitalised_label :
  forall label : string,
    isascii label = true ->
    (forall f, is_patch_file (capitalize label) f = is_patch_file label f) /\
    (forall s,
        is_patch_file label (capitalize label ++ "/" ++ s ++ ".tif") = true) /\
    (capitalize label <> label ->
     forall rest, is_patch_file label (label ++ rest) = false).
Proof.
  intros label _. split; [|split].
  - intros f. unfold is_patch_file. rewrite capitalize_idem. reflexivity.
  - intros s. unfold is_patch_file, startswith. apply andb_true_iff. split.
    + apply endswith_app_r, (endswith_app_r "/"), endswith_append.
    + apply prefix_append.
  - intros Hne rest. unfold is_patch_file, startswith.
    apply andb_false_iff. right.
    destruct (String.prefix _ _) eqn:E; [exfalso|reflexivity].
    apply Hne. eapply prefix_same_length; eauto. apply length_capitalize.
Qed.

Lemma patch_files_match_capitalised_label_witness :
  is_patch_file "G2M" ("G2M" ++ "/G2M_T_0.tif") = false.
Proof.
  apply (patch_files_match_capitalised_label "G2M").
  - reflexivity.
  - vm_compute. discriminate.
Defined.

(* ===================================================================== *)
(** * An aborted export, read back *)
(* ===================================================================== *)

Section PatchArchive.
Variables (decodes : dtype -> bool) (dt : dtype) (SESSION_TIME : string)
          (tiffs : archive).

(** Every member is a patch written by the export loop: at position [j] a
    TIFF of dtype [dt] named after a label of [LABELS] and [j]. *)
Hypothesis patches_only : forall j f c,
    nth_error tiffs j = Some (f, c) ->
    exists label patch,
      In label LABELS /\ f = image_patch_fn label SESSION_TIME j /\
      c = Tiff dt patch.

Lemma patch_archive_unique i j f c c' :
  nth_error tiffs i = Some (f, c) -> nth_error tiffs j = Some (f, c') ->
  j = i.
Proof.
  intros Hi Hj.
  destruct (patches_only _ _ _ Hi) as (l & p & Hl & Hf & _).
  destruct (patches_only _ _ _ Hj) as (l' & p' & Hl' & Hf' & _).
  rewrite Hf in Hf'. symmetry.
  exact (image_patch_fn_inj _ _ _ _ _ Hl Hl' Hf').
Qed.

Lemma patch_archive_read i f patch :
  nth_error tiffs i = Some (f, Tiff dt patch) ->
  read_member decodes tiffs f
  = if decodes dt then Ok patch else Raise (ReadError f).
Proof.
  intros Hi. unfold read_member.
  rewrite (zip_open_unique tiffs i f (Tiff dt patch) Hi); [reflexivity|].
  intros j f' c' Hj ->. eapply patch_archive_unique; eauto.
Qed.

Lemma patch_archive_visit zfn z k f :
  In (z, k, f) (visits LABELS [(zfn, tiffs)]) ->
  In f (namelist tiffs) /\
  exists patch,
    visit_read decodes (z, k, f)
    = if decodes dt then Ok patch else Raise (ReadError f).
Proof.
  intros Hin. apply visits_In in Hin as ((zfn' & Hz) & label & Hk & Hf).
  destruct Hz as [Hz|[]]. injection Hz as _ <-.
  apply filter_In in Hf as [Hname _].
  split; [exact Hname|].
  apply in_map_iff in Hname as ([f' c] & Hf' & Hmember).
  simpl in Hf'. subst f'.
  apply In_nth_error in Hmember as (j & Hj).
  destruct (patches_only _ _ _ Hj) as (l & patch & _ & _ & ->).
  exists patch. simpl. eapply patch_archive_read; eauto.
Qed.

Lemma patch_archive_visited zfn j label patch :
  In label LABELS ->
  nth_error tiffs j
  = Some (image_patch_fn label SESSION_TIME j, Tiff dt patch) ->
  exists k,
    nth_error LABELS k = Some label /\
    In (tiffs, k, image_patch_fn label SESSION_TIME j)
       (visits LABELS [(zfn, tiffs)]).
Proof.
  intros Hl Hj. destruct (In_nth_error _ _ Hl) as (k & Hk).
  exists k. split; [exact Hk|].
  apply visits_In. split; [exists zfn; left; reflexivity|].
  exists label. split; [exact Hk|].
  apply filter_In. split.
  - apply in_map_iff. eexists. split; [|eapply nth_error_In; eauto].
    reflexivity.
  - apply is_patch_file_image_patch_fn. exact Hl.
Qed.
End PatchArchive.

(** X18.  An export that aborts after at least one patch leaves an archive
    that the dataset builder accepts whenever it would have accepted the
    complete one.  When the points before position [idx >= 1] can be
    cropped, the point at [idx] raises, the labels are from [LABELS] and
    the reader decodes the dtype of the first image layer,
    [create_tf_record] succeeds on the archive left behind and pairs, for
    every point before [idx], the written form of its patch with the index
    of its label: the truncated session enters the dataset without any
    sign that the export failed.  (When the reader does not decode that
    dtype, [create_tf_record] raises the read error of a member.) *)
Theorem aborted_export_is_read_back :
  forall (decodes : dtype -> bool)
         (interp : bool -> image -> nat * nat -> nat -> nat -> Q)
         (layers : list Layer) (points_layer : Points)
         (SESSION_TIME : string) (shape : Z) (use_visible_layers : bool)
         (idx : nat) (coords : list Q) (e : exn) (filename : string),
    (length (pdata points_layer) <= length (State points_layer))%nat ->
    Forall (fun label => In label LABELS) (State points_layer) ->
    (0 < idx)%nat ->
    nth_error (pdata points_layer) idx = Some coords ->
    (forall j coords',
        (j < idx)%nat -> nth_error (pdata points_layer) j = Some coords' ->
        exists patch,
          get_image_patch (filter isinstance_Image layers) coords' shape
          = Ok patch) ->
    get_image_patch (filter isinstance_Image layers) coords shape = Raise e ->
    exists zip,
      cnn_annotation_widget layers points_layer SESSION_TIME shape
        use_visible_layers = (zip, Raise e) /\
      (decodes (patch_dtype (filter isinstance_Image layers)) = true ->
       exists images labels_arr,
         create_tf_record decodes interp [(zname zip, members zip)] filename
           LABELS
         = Ok (filename, images, labels_arr) /\
         forall j coords',
           (j < idx)%nat -> nth_error (pdata points_layer) j = Some coords' ->
           exists label patch n k,
             nth_error (State points_layer) j = Some label /\
             get_image_patch (filter isinstance_Image layers) coords' shape
             = Ok patch /\
             nth_error LABELS k = Some label /\
             nth_error images n = Some (written_image interp patch) /\
             nth_error labels_arr n = Some (Z.of_nat k)) /\
      (decodes (patch_dtype (filter isinstance_Image layers)) = false ->
       exists f,
         In f (namelist (members zip)) /\
         create_tf_record decodes interp [(zname zip, members zip)] filename
           LABELS
         = Raise (ReadError f)).
Proof.
  intros decodes interp layers points_layer SESSION_TIME shape
    use_visible_layers idx coords e filename Hstates Hlabels Hpos Hidx Hbefore
    Hraise.
  destruct (cnn_annotation_widget_raise layers points_layer SESSION_TIME
              shape use_visible_layers idx coords e Hstates Hidx Hbefore
              Hraise) as (tiffs & Hrun & Hlen & Hnth).
  rewrite Forall_forall in Hlabels.
  set (dt := patch_dtype (filter isinstance_Image layers)) in *.
  assert (Hlt : (idx < length (pdata points_layer))%nat)
    by (apply nth_error_Some; congruence).
  assert (Hpoint : forall j, (j < idx)%nat ->
             exists coords' label patch,
               nth_error (pdata points_layer) j = Some coords' /\
               nth_error (State points_layer) j = Some label /\
               In label LABELS /\
               get_image_patch (filter isinstance_Image layers) coords' shape
               = Ok patch /\
               nth_error tiffs j
               = Some (image_patch_fn label SESSION_TIME j, Tiff dt patch)).
  { intros j Hj.
    destruct (nth_error (pdata points_layer) j) as [coords'|] eqn:E.
    2:{ apply nth_error_None in E. lia. }
    destruct (Hnth j coords' Hj E) as (label & patch & Hl & Hp & Ht).
    exists coords', label, patch. repeat split; auto.
    apply Hlabels. eapply nth_error_In; eauto. }
  assert (Honly : forall j f c,
             nth_error tiffs j = Some (f, c) ->
             exists label patch,
               In label LABELS /\ f = image_patch_fn label SESSION_TIME j /\
               c = Tiff dt patch).
  { intros j f c Hj.
    assert (Hjlt : (j < idx)%nat)
      by (rewrite <- Hlen; apply nth_error_Some; congruence).
    destruct (Hpoint j Hjlt) as (_ & label & patch & _ & _ & Hl & _ & Ht).
    rewrite Hj in Ht. injection Ht as -> ->. eauto. }
  set (zfn := ("annotation_" ++ SESSION_TIME ++ ".zip")%string) in *.
  set (vs := visits LABELS [(zfn, tiffs)]).
  assert (Hzip : is_annotation_zip zfn = true)
    by apply is_annotation_zip_session.
  assert (Hvisited : forall j, (j < idx)%nat ->
             exists coords' label patch n k,
               nth_error (pdata points_layer) j = Some coords' /\
               nth_error (State points_layer) j = Some label /\
               get_image_patch (filter isinstance_Image layers) coords' shape
               = Ok patch /\
               nth_error LABELS k = Some label /\
               nth_error vs n
               = Some (tiffs, k, image_patch_fn label SESSION_TIME j) /\
               read_member decodes tiffs (image_patch_fn label SESSION_TIME j)
               = if decodes dt then Ok patch
                 else Raise (ReadError (image_patch_fn label SESSION_TIME j))).
  { intros j Hj.
    destruct (Hpoint j Hj) as (coords' & label & patch & Hc & Hl & Hin &
                               Hp & Ht).
    destruct (patch_archive_visited dt SESSION_TIME tiffs zfn j label patch
                Hin Ht) as (k & Hk & Hvisit).
    apply In_nth_error in Hvisit as (n & Hn).
    pose proof (patch_archive_read decodes dt SESSION_TIME tiffs Honly j _
                  patch Ht) as Hr.
    exists coords', label, patch, n, k. repeat split; assumption. }
  exists (mkZip zfn tiffs). split; [exact Hrun|]. cbn [zname members]. split.
  - intros Hdec.
    destruct (mapM_total (visit_read decodes) vs) as [imgs Hread].
    { intros [[z k] f] Hin.
      destruct (patch_archive_visit decodes dt SESSION_TIME tiffs Honly
                  zfn z k f Hin) as (_ & patch & Hr).
      rewrite Hdec in Hr. eauto. }
    assert (Hfound : forall j, (j < idx)%nat ->
               exists coords' label patch n k,
                 nth_error (pdata points_layer) j = Some coords' /\
                 nth_error (State points_layer) j = Some label /\
                 get_image_patch (filter isinstance_Image layers) coords'
                   shape = Ok patch /\
                 nth_error LABELS k = Some label /\
                 nth_error vs n
                 = Some (tiffs, k, image_patch_fn label SESSION_TIME j) /\
                 nth_error imgs n = Some patch).
    { intros j Hj.
      destruct (Hvisited j Hj)
        as (coords' & label & patch & n & k & Hc & Hl & Hp & Hk & Hn & Hr).
      destruct (mapM_nth _ _ _ _ _ Hread Hn) as (img & Himg & Himgs).
      simpl in Himg. rewrite Hr, Hdec in Himg. injection Himg as <-.
      exists coords', label, patch, n, k. repeat split; assumption. }
    assert (Hsome : imgs <> []).
    { destruct (Hfound 0%nat Hpos)
        as (c0 & l0 & p0 & n & k & _ & _ & _ & _ & _ & Himgs).
      intros Hnil. rewrite Hnil in Himgs. destruct n; discriminate. }
    exists (map (written_image interp) imgs),
           (map (fun v => astype_int64 (visit_label v)) vs).
    split.
    { apply create_tf_record_visits. exists imgs. cbn [filter fst].
      rewrite !Hzip.
      split; [exact Hread|]. split; [exact Hsome|reflexivity]. }
    intros j coords' Hj Hc.
    destruct (Hfound j Hj) as (coords'' & label & patch & n & k & Hc' & Hl &
                               Hp & Hk & Hn & Himgs).
    assert (coords'' = coords') by congruence. subst coords''.
    exists label, patch, n, k. repeat split; auto.
    + rewrite nth_error_map, Himgs. reflexivity.
    + rewrite nth_error_map. unfold visit in *. rewrite Hn. simpl.
      rewrite astype_int64_small; [reflexivity|].
      assert (k < length LABELS)%nat by (apply nth_error_Some; congruence).
      simpl in *. lia.
  - intros Hdec.
    destruct vs as [|[[z k] f] rest] eqn:Evs.
    { exfalso.
      destruct (Hvisited 0%nat Hpos)
        as (c0 & l0 & p0 & n & k & _ & _ & _ & _ & Hn & _).
      destruct n; discriminate Hn. }
    assert (Hin : In (z, k, f) (visits LABELS [(zfn, tiffs)]))
      by (fold vs; rewrite Evs; left; reflexivity).
    destruct (patch_archive_visit decodes dt SESSION_TIME tiffs Honly
                zfn z k f Hin) as (Hname & patch & Hr).
    rewrite Hdec in Hr.
    exists f. split; [exact Hname|].
    rewrite create_tf_record_eq. cbn [filter fst]. rewrite Hzip.
    fold vs. rewrite Evs. cbn [mapM]. rewrite Hr. reflexivity.
Qed.

Lemma aborted_export_is_read_back_witness :
  exists zip images labels_arr,
    cnn_annotation_widget [GFP4] second_point_outside "T" 2 true
    = (zip, Raise (ValueError_patch_shape [1; 2])) /\
    create_tf_record decodes_8_16 copy_interp [(zname zip, members zip)]
      "CNN_train.tfrecord" LABELS
    = Ok ("CNN_train.tfrecord", images, labels_arr).
Proof.
  destruct (aborted_export_is_read_back decodes_8_16 copy_interp [GFP4]
              second_point_outside "T" 2 true 1 [0; 4; 2]%Q
              (ValueError_patch_shape [1; 2]) "CNN_train.tfrecord")
    as (zip & Hrun & Hreadable & _).
  - simpl. lia.
  - repeat (constructor; [simpl; auto 10|]). constructor.
  - lia.
  - reflexivity.
  - intros [|j] coords' Hj Hc; [|lia].
    injection Hc as <-. eexists. vm_compute. reflexivity.
  - vm_compute. reflexivity.
  - destruct Hreadable as (images & labels_arr & Hread & _); [reflexivity|].
    exists zip, images, labels_arr. split; assumption.
Defined.



